(** * ai_recruiter: resume field extraction and the FAISS vector index

    A shallow embedding of
    - [backend/services/resume_parser.py]  (experience years, phone,
      sections, skills, languages),
    - [backend/services/faiss_service.py]  (the vector index service),
    - [backend/services/embedding_service.py] (cosine similarity, text
      preparation, the choice of the model),
    - [backend/api/routes.py]              (the delete, rebuild and count
      routes),
    together with the properties of the specification that concern them
    and further properties of the same code. *)

From Stdlib Require Import String Ascii List ZArith NArith Bool Lia.
From Stdlib Require Import Floats Reals Lra.
From stdpp Require Import base option list gmap strings pretty sorting.

Local Open Scope string_scope.
Local Open Scope list_scope.

(** ** Python's [re] module, as far as the parser's patterns use it

    Text is a Rocq [string]: a sequence of code points below 256, read as
    Latin-1.  The engine is the backtracking one of [re]: leftmost match,
    greedy quantifiers tried longest first, the continuation deciding
    whether a choice stands. *)
Module re.

Definition code (c : ascii) : N := N_of_ascii c.

(** [\d] on a [str] pattern: the decimal digits (below 256 only 0-9). *)
Definition is_digit (c : ascii) : bool :=
  (48 <=? code c)%N && (code c <=? 57)%N.

(** [\s] on a [str] pattern: Unicode white space below 256. *)
Definition is_space (c : ascii) : bool :=
  let n := code c in
  ((9 <=? n)%N && (n <=? 13)%N) || ((28 <=? n)%N && (n <=? 32)%N)
  || (n =? 133)%N || (n =? 160)%N.

Definition is_upper (c : ascii) : bool :=
  (65 <=? code c)%N && (code c <=? 90)%N.

Definition lower (c : ascii) : ascii :=
  if is_upper c then ascii_of_N (code c + 32) else c.

(** A literal of the pattern against a character of the text
    (the patterns' literals are ASCII, so simple case folding is exact). *)
Definition lit_eqb (icase : bool) (c x : ascii) : bool :=
  if icase then Ascii.eqb (lower c) (lower x) else Ascii.eqb c x.

Inductive regex : Type :=
| Eps
| Lit (c : ascii)
| Set_ (p : ascii -> bool)                          (* \d  \s  [...] *)
| Cat (r1 r2 : regex)
| Opt (r : regex)                                   (* r?  (greedy) *)
| Rep (p : ascii -> bool) (lo : nat) (hi : option nat) (* x{lo,hi} x* x+ on a one-character x *)
| Group (i : nat) (r : regex).                      (* the i-th ( ... ) *)

Fixpoint cat (rs : list regex) : regex :=
  match rs with
  | [] => Eps
  | [r] => r
  | r :: rs' => Cat r (cat rs')
  end.

(** A word of the pattern, letter by letter. *)
Definition word (w : string) : regex :=
  cat (map Lit (list_ascii_of_string w)).

Fixpoint ngroups (r : regex) : nat :=
  match r with
  | Cat r1 r2 => ngroups r1 + ngroups r2
  | Opt r' => ngroups r'
  | Group _ r' => S (ngroups r')
  | _ => 0
  end.

(** Group number to captured text; [None] for a group that took no part. *)
Definition caps : Type := nat -> option (list ascii).

Definition no_caps : caps := fun _ => None.

Definition set_cap (i : nat) (v : list ascii) (c : caps) : caps :=
  fun j => if Nat.eqb j i then Some v else c j.

(** What was consumed between the text [s] and its suffix [s']. *)
Definition consumed (s s' : list ascii) : list ascii :=
  firstn (length s - length s') s.

Section Matcher.
Context {R : Type}.
Variable icase : bool.

(** [x{lo,hi}]: take one more character while allowed, longest first;
    give characters back one at a time when the continuation fails. *)
Fixpoint rep (p : ascii -> bool) (lo : nat) (hi : option nat)
    (s : list ascii) (k : list ascii -> option R) : option R :=
  let stop := match lo with 0 => k s | S _ => None end in
  match s with
  | x :: s' =>
      if p x && negb (match hi with Some 0 => true | _ => false end)
      then match rep p (pred lo) (option_map pred hi) s' k with
           | Some res => Some res
           | None => stop
           end
      else stop
  | [] => stop
  end.

Fixpoint run (r : regex) (s : list ascii) (c : caps)
    (k : list ascii -> caps -> option R) : option R :=
  match r with
  | Eps => k s c
  | Lit a =>
      match s with
      | x :: s' => if lit_eqb icase a x then k s' c else None
      | [] => None
      end
  | Set_ p =>
      match s with
      | x :: s' => if p x then k s' c else None
      | [] => None
      end
  | Cat r1 r2 => run r1 s c (fun s' c' => run r2 s' c' k)
  | Opt r' =>
      match run r' s c k with
      | Some res => Some res
      | None => k s c
      end
  | Rep p lo hi => rep p lo hi s (fun s' => k s' c)
  | Group i r' =>
      run r' s c (fun s' c' => k s' (set_cap i (consumed s s') c'))
  end.
End Matcher.

(** The match starting exactly at the head of [s]: the rest of the text
    after it, and the groups. *)
Definition match_at (icase : bool) (r : regex) (s : list ascii)
  : option (list ascii * caps) :=
  run icase r s no_caps (fun s' c => Some (s', c)).

(** Left-to-right scan for non-overlapping matches; [skip] counts the
    characters still covered by the previous match.  An empty match lets
    the scan move one character on (with greedy quantifiers and no
    alternation an empty first match is the only match at its position). *)
Fixpoint scan (icase : bool) (r : regex) (s : list ascii) (skip : nat)
  : list (list ascii * caps) :=
  match s with
  | [] =>
      match skip with
      | 0 => match match_at icase r [] with
             | Some (_, c) => [([], c)]
             | None => []
             end
      | S _ => []
      end
  | _ :: s' =>
      match skip with
      | S n => scan icase r s' n
      | 0 =>
          match match_at icase r s with
          | Some (rest, c) =>
              (consumed s rest, c)
                :: scan icase r s' (pred (length s - length rest))
          | None => scan icase r s' 0
          end
      end
  end.

(** An element of the list [re.findall] returns. *)
Inductive found : Type :=
| FStr (s : string)
| FTuple (l : list string).

Definition group_text (c : caps) (i : nat) : string :=
  match c i with
  | Some v => string_of_list_ascii v
  | None => ""
  end.

(** [re.findall]: the whole match for a pattern without groups, the
    group for a pattern with one, the tuple of groups otherwise. *)
Definition report (r : regex) (m : list ascii * caps) : found :=
  match ngroups r with
  | 0 => FStr (string_of_list_ascii (fst m))
  | 1 => FStr (group_text (snd m) 1)
  | n => FTuple (map (group_text (snd m)) (seq 1 n))
  end.

Definition finditer (icase : bool) (r : regex) (text : string)
  : list (list ascii * caps) :=
  scan icase r (list_ascii_of_string text) 0.

Definition findall (icase : bool) (r : regex) (text : string) : list found :=
  map (report r) (finditer icase r text).

(** The text of the first match, [re.search(...).group()], if there is
    a match. *)
Definition search_group (icase : bool) (r : regex) (text : string)
  : option string :=
  match finditer icase r text with
  | [] => None
  | m :: _ => Some (string_of_list_ascii (fst m))
  end.

(** The value of a decimal digit. *)
Definition digit_value (c : ascii) : N := (code c - 48)%N.

Definition int_digits (l : list ascii) : N :=
  fold_left (fun acc c => (10 * acc + digit_value c)%N) l 0%N.

(** [int(s)] on the text of a capture; [None] is the [ValueError] of a
    text that is not a non-empty run of digits. *)
Definition int_str (s : string) : option N :=
  let l := list_ascii_of_string s in
  match l with
  | [] => None
  | _ => if forallb is_digit l then Some (int_digits l) else None
  end.

(** [int(match)] on an element of [findall]'s list; a tuple is no
    number either. *)
Definition int (m : found) : option N :=
  match m with
  | FStr s => int_str s
  | FTuple _ => None
  end.

End re.

(** ** What a match is: the declarative reading of the engine *)
Module re_sem.
Import re.

Definition within (hi : option nat) (n : nat) : Prop :=
  match hi with Some h => n <= h | None => True end.

(** [matches r s c s' c']: [r] can consume [s] down to its suffix [s'],
    turning the groups [c] into [c']. *)
Inductive matches (icase : bool)
  : regex -> list ascii -> caps -> list ascii -> caps -> Prop :=
| M_Eps s c : matches icase Eps s c s c
| M_Lit a x s c :
    lit_eqb icase a x = true -> matches icase (Lit a) (x :: s) c s c
| M_Set (p : ascii -> bool) x s c :
    p x = true -> matches icase (Set_ p) (x :: s) c s c
| M_Cat r1 r2 s c s1 c1 s2 c2 :
    matches icase r1 s c s1 c1 -> matches icase r2 s1 c1 s2 c2 ->
    matches icase (Cat r1 r2) s c s2 c2
| M_Opt_some r s c s' c' :
    matches icase r s c s' c' -> matches icase (Opt r) s c s' c'
| M_Opt_none r s c : matches icase (Opt r) s c s c
| M_Rep (p : ascii -> bool) lo hi taken s c :
    lo <= length taken -> within hi (length taken) ->
    forallb p taken = true ->
    matches icase (Rep p lo hi) (taken ++ s) c s c
| M_Group i r s c s' c' :
    matches icase r s c s' c' ->
    matches icase (Group i r) s c s' (set_cap i (consumed s s') c').




End re_sem.

(** ** [ResumeParser]: the pattern-based field extractors *)
Module ResumeParser.
Import re.

Definition digits1 : regex := Rep is_digit 1 None.     (* \d+ *)
Definition spaces : regex := Rep is_space 0 None.      (* \s* *)

(** The list [patterns] of [_extract_experience_years], in its order
    (the source patterns are quoted with blanks between their items, as
    under re.VERBOSE). *)
Definition patterns : list regex :=
  [ (* (\d+) \+? \s* years? \s* (?: of \s* )? experience *)
    cat [Group 1 digits1; Opt (Lit "+"); spaces; word "year"; Opt (Lit "s");
         spaces; Opt (cat [word "of"; spaces]); word "experience"];
    (* (\d+) \+? \s* years? \s* in *)
    cat [Group 1 digits1; Opt (Lit "+"); spaces; word "year"; Opt (Lit "s");
         spaces; word "in"];
    (* over \s* (\d+) \s* years? *)
    cat [word "over"; spaces; Group 1 digits1; spaces; word "year";
         Opt (Lit "s")];
    (* more \s* than \s* (\d+) \s* years? *)
    cat [word "more"; spaces; word "than"; spaces; Group 1 digits1; spaces;
         word "year"; Opt (Lit "s")] ].

(** [[int(match) for match in matches]]; [None] when some [int] raises. *)
Definition ints (matches : list found) : option (list N) :=
  mapM int matches.

(** Python's [max] of a list known to be non-empty. *)
Definition max_of (vs : list N) : N := fold_right N.max 0%N vs.

(** The loop [for pattern in patterns] : the first pattern that has
    matches returns the largest of its captures, a [ValueError] lets the
    loop continue, and the end of the list is [None]. *)
Fixpoint experience_loop (ps : list regex) (text : string) : option N :=
  match ps with
  | [] => None
  | pattern :: ps' =>
      match findall true pattern text with
      | [] => experience_loop ps' text
      | matches =>
          match ints matches with
          | Some vs => Some (max_of vs)
          | None => experience_loop ps' text
          end
      end
  end.

Definition _extract_experience_years (text : string) : option N :=
  experience_loop patterns text.

(** [[-.\s]] *)
Definition is_sep (c : ascii) : bool :=
  Ascii.eqb c "-" || Ascii.eqb c "." || is_space c.

Definition sep : regex := Opt (Set_ is_sep).
Definition digits (n : nat) : regex := Rep is_digit n (Some n).   (* \d{n} *)

(** ( \+? \d{1,3} [-.\s]? )? \(? \d{3} \)? [-.\s]? \d{3} [-.\s]? \d{4} *)
Definition phone_pattern : regex :=
  cat [Opt (Group 1 (cat [Opt (Lit "+"); Rep is_digit 1 (Some 3); sep]));
       Opt (Lit "("); digits 3; Opt (Lit ")"); sep; digits 3; sep; digits 4].

(** [''.join(phones[0]) if isinstance(phones[0], tuple) else phones[0]] *)
Definition phone_value (m : found) : string :=
  match m with
  | FTuple l => String.concat "" l
  | FStr s => s
  end.

(** The entry [contact_info['phone']] that [_extract_contact_info]
    builds ([None]: the key is not set).  The e-mail and LinkedIn steps
    of the function write other keys only. *)
Definition _extract_contact_info_phone (text : string) : option string :=
  match findall false phone_pattern text with
  | [] => None
  | m :: _ => Some (phone_value m)
  end.


(** The specification's reading of the stored phone value: the digits of
    the matched number, with or without a leading plus. *)
Definition spec_phone_values (whole : string) : list string :=
  let ds := string_of_list_ascii
              (filter (fun c => is_digit c = true) (list_ascii_of_string whole)) in
  [ds; ("+" ++ ds)%string].

End ResumeParser.

(** ** Python exceptions and results *)

Inductive exn : Type :=
| AssertionError
| KeyError (key : string)
| ValueError
| OSError
| RuntimeError (msg : string) (cause : exn).   (* RuntimeError(f"msg: {str(e)}") *)

Inductive result (A : Type) : Type :=
| Ok (a : A)
| Raise (e : exn).
Arguments Ok {A} a.
Arguments Raise {A} e.

(** ** The [faiss] library, as far as the service calls it

    The numeric side of the library is an interface: the scalar type (the
    float32 of the arrays), the comparison the service applies to scores,
    the in-place row normalisation, the metric of the flat index and the
    kernel that answers one query row with its [k] best (score, label)
    pairs, best first. *)
Module faiss.

Class Backend (scalar : Type) : Type := {
  score_ge : scalar -> scalar -> bool;             (* a >= b *)
  normalize_L2 : list scalar -> list scalar;
  normalize_L2_length : forall v, length (normalize_L2 v) = length v;
  inner_product : list scalar -> list scalar -> scalar;
  knn : list (list scalar) -> list scalar -> nat -> list (scalar * Z)
}.

Section Index.
Context {scalar : Type} `{!Backend scalar}.

(** [faiss.IndexFlatIP]: the dimension and the stored rows. *)
Record IndexFlatIP : Type := { d : nat; xb : list (list scalar) }.

Definition new (dim : nat) : IndexFlatIP := {| d := dim; xb := [] |}.

Definition ntotal (idx : IndexFlatIP) : nat := length (xb idx).

(** The second component of the shape of a two-dimensional array. *)
Definition shape1 (rows : list (list scalar)) : nat :=
  match rows with
  | [] => 0
  | r :: _ => length r
  end.

(** [index.add(x)]: [assert d == self.d], then the rows are appended. *)
Definition add (idx : IndexFlatIP) (x : list (list scalar))
  : result IndexFlatIP :=
  if Nat.eqb (shape1 x) (d idx)
  then Ok {| d := d idx; xb := xb idx ++ x |}
  else Raise AssertionError.

(** [index.search(x, k)] for a single query row: [assert d == self.d],
    [assert k > 0], then the kernel; the result is [zip(D[0], I[0])]. *)
Definition search (idx : IndexFlatIP) (q : list scalar) (k : Z)
  : result (list (scalar * Z)) :=
  if Nat.eqb (length q) (d idx)
  then if (0 <? k)%Z
       then Ok (knn (xb idx) q (Z.to_nat k))
       else Raise AssertionError
  else Raise AssertionError.

(** [np.vstack] of rows: a [ValueError] for no row at all, or for rows
    of different lengths. *)
Definition vstack (rows : list (list scalar))
  : result (list (list scalar)) :=
  match rows with
  | [] => Raise ValueError
  | r :: rs =>
      if forallb (fun r' => Nat.eqb (length r') (length r)) rs
      then Ok rows
      else Raise ValueError
  end.


End Index.
Arguments IndexFlatIP scalar : clear implicits.

End faiss.

(** ** [FAISSService] *)
Module FAISSService.
Import faiss.

(** [str(vector_id)]: the decimal key of a slot in the metadata. *)
Definition str (n : Z) : string := pretty n.

(** A value of the metadata mapping. *)
Record entry : Type := {
  resume_id : string;
  filename : string;
  skills : list string;
  experience_years : option N;
  education : list string;
  sections : list (string * string);
  added_at : string
}.

(** The dictionary [resume_data], read with [.get]: a missing key is
    [None]. *)
Record resume_data : Type := {
  rd_filename : option string;
  rd_skills : option (list string);
  rd_experience_years : option N;
  rd_education : option (list string);
  rd_sections : option (list (string * string));
  rd_created_at : option string                  (* already through str() *)
}.

Definition make_entry (rid : string) (data : resume_data) : entry :=
  {| resume_id := rid;
     filename := default "" (rd_filename data);
     skills := default [] (rd_skills data);
     experience_years := rd_experience_years data;
     education := default [] (rd_education data);
     sections := default [] (rd_sections data);
     added_at := default "" (rd_created_at data) |}.

(** A file of the index directory. *)
Inductive file (A : Type) : Type :=
| Absent
| Unreadable                       (* exists, but cannot be decoded *)
| Stored (content : A).
Arguments Absent {A}.
Arguments Unreadable {A}.
Arguments Stored {A} content.

(** [os.path.exists] *)
Definition exists_ {A} (f : file A) : bool :=
  match f with Absent => false | _ => true end.

Section Service.
Context {scalar : Type} `{!Backend scalar}.

Record service : Type := {
  index : IndexFlatIP scalar;
  metadata : gmap string entry;
  dimension : nat
}.

(** FAISS_INDEX_PATH and FAISS_METADATA_PATH. *)
Record disk : Type := {
  index_file : file (IndexFlatIP scalar);
  metadata_file : file (gmap string entry)
}.

Record world : Type := { self : service; fs : disk }.

(** Computations of the service: they read and write the object and
    the two files, and return or raise. *)
Definition M (A : Type) : Type := world -> result A * world.

Definition ret {A} (a : A) : M A := fun w => (Ok a, w).
Definition raise {A} (e : exn) : M A := fun w => (Raise e, w).
Definition bind {A B} (m : M A) (f : A -> M B) : M B :=
  fun w => match m w with
           | (Ok a, w') => f a w'
           | (Raise e, w') => (Raise e, w')
           end.
(** [try: m except Exception as e: h e]; what [m] wrote stays written. *)
Definition try_except {A} (m : M A) (h : exn -> M A) : M A :=
  fun w => match m w with
           | (Ok a, w') => (Ok a, w')
           | (Raise e, w') => h e w'
           end.
Definition get : M world := fun w => (Ok w, w).
Definition set_index (i : IndexFlatIP scalar) : M unit :=
  fun w => (Ok tt, {| self := {| index := i; metadata := metadata (self w);
                                 dimension := dimension (self w) |};
                      fs := fs w |}).
Definition set_metadata (m : gmap string entry) : M unit :=
  fun w => (Ok tt, {| self := {| index := index (self w); metadata := m;
                                 dimension := dimension (self w) |};
                      fs := fs w |}).
Definition write_index_file (i : IndexFlatIP scalar) : M unit :=
  fun w => (Ok tt, {| self := self w;
                      fs := {| index_file := Stored i;
                               metadata_file := metadata_file (fs w) |} |}).
Definition write_metadata_file (m : gmap string entry) : M unit :=
  fun w => (Ok tt, {| self := self w;
                      fs := {| index_file := index_file (fs w);
                               metadata_file := Stored m |} |}).
Definition lift {A} (r : result A) : M A := fun w => (r, w).

Notation "x <- m ;; k" := (bind m (fun x => k))
  (at level 100, m at next level, right associativity).

Definition _save_index : M unit :=
  try_except
    (w <- get ;;
     _ <- write_index_file (index (self w)) ;;
     write_metadata_file (metadata (self w)))
    (fun e => raise (RuntimeError "Could not save FAISS index" e)).

Definition _create_new_index : M unit :=
  try_except
    (w <- get ;;
     _ <- set_index (new (dimension (self w))) ;;
     _ <- set_metadata ∅ ;;
     _save_index)
    (fun e => raise (RuntimeError "Could not create FAISS index" e)).

(** [faiss.read_index(path)] *)
Definition read_index : M (IndexFlatIP scalar) :=
  fun w => match index_file (fs w) with
           | Stored i => (Ok i, w)
           | _ => (Raise OSError, w)
           end.

(** [json.load(open(path))] *)
Definition read_metadata : M (gmap string entry) :=
  fun w => match metadata_file (fs w) with
           | Stored m => (Ok m, w)
           | Unreadable => (Raise ValueError, w)
           | Absent => (Raise OSError, w)
           end.

Definition _load_index : M unit :=
  try_except
    (i <- read_index ;;
     _ <- set_index i ;;
     m <- read_metadata ;;
     set_metadata m)
    (fun e => raise (RuntimeError "Could not load FAISS index" e)).

Definition _initialize_index : M unit :=
  try_except
    (w <- get ;;
     if exists_ (index_file (fs w)) && exists_ (metadata_file (fs w))
     then _load_index
     else _create_new_index)
    (fun _ => _create_new_index).

(** [add_vector]; the embedding is a one-dimensional array, reshaped
    to a single row. *)
Definition add_vector (rid : string) (embedding : list scalar)
    (data : resume_data) : M unit :=
  try_except
    (let embedding := normalize_L2 embedding in
     w <- get ;;
     i <- lift (add (index (self w)) [embedding]) ;;
     _ <- set_index i ;;
     let vector_id := (Z.of_nat (ntotal i) - 1)%Z in
     w <- get ;;
     _ <- set_metadata
            (<[str vector_id := make_entry rid data]> (metadata (self w))) ;;
     _save_index)
    (fun e => raise (RuntimeError "Could not add vector to index" e)).

(** An element of [resume_data_list]: [data['embedding']], the key
    ['resume_id'] (which may be missing) and the keys read with [.get]. *)
Record batch_item : Type := {
  bi_embedding : list scalar;
  bi_resume_id : option string;
  bi_data : resume_data
}.

(** One turn of the loop [for data in resume_data_list], on the pair
    ([embeddings], [metadata_batch]); [n] is [self.index.ntotal]. *)
Definition batch_turn (n : nat)
    (acc : result (list (list scalar) * gmap string entry))
    (data : batch_item)
  : result (list (list scalar) * gmap string entry) :=
  match acc with
  | Raise e => Raise e
  | Ok (embeddings, metadata_batch) =>
      let embeddings := embeddings ++ [bi_embedding data] in
      let vector_id :=
        (Z.of_nat n + Z.of_nat (length embeddings) - 1)%Z in
      match bi_resume_id data with
      | None => Raise (KeyError "resume_id")
      | Some rid =>
          Ok (embeddings,
              <[str vector_id := make_entry rid (bi_data data)]>
                metadata_batch)
      end
  end.

Definition add_vectors_batch (resume_data_list : list batch_item)
  : M unit :=
  try_except
    (w <- get ;;
     acc <- lift (fold_left (batch_turn (ntotal (index (self w))))
                    resume_data_list (Ok ([], ∅))) ;;
     embeddings_array <- lift (vstack (fst acc)) ;;
     let embeddings_array := map normalize_L2 embeddings_array in
     i <- lift (add (index (self w)) embeddings_array) ;;
     _ <- set_index i ;;
     w <- get ;;
     _ <- set_metadata (snd acc ∪ metadata (self w)) ;;   (* dict.update *)
     _save_index)
    (fun e => raise (RuntimeError "Could not add vectors to index" e)).

(** An element of the list [search] returns. *)
Record search_result : Type := {
  similarity_score : scalar;
  result_index : Z;
  result_entry : entry
}.

(** The body of the loop over [zip(similarities[0], indices[0])]. *)
Definition keep (md : gmap string entry) (threshold : scalar)
    (hit : scalar * Z) : option search_result :=
  let '(similarity, idx) := hit in
  if score_ge similarity threshold
  then match md !! str idx with
       | Some e => Some {| similarity_score := similarity;
                           result_index := idx;
                           result_entry := e |}
       | None => None
       end
  else None.

Definition search (query_embedding : list scalar) (top_k : Z)
    (threshold : scalar) : M (list search_result) :=
  try_except
    (w <- get ;;
     let idx := index (self w) in
     if Nat.eqb (ntotal idx) 0 then ret []
     else
       let query_embedding := normalize_L2 query_embedding in
       hits <- lift (faiss.search idx query_embedding
                       (Z.min top_k (Z.of_nat (ntotal idx)))) ;;
       ret (omap (keep (metadata (self w)) threshold) hits))
    (fun e => raise (RuntimeError "Could not perform search" e)).

Definition delete_vector (rid : string) : M bool := ret false.

Definition get_total_vectors : M nat :=
  w <- get ;; ret (ntotal (index (self w))).

Definition rebuild_index : M unit :=
  try_except
    (w <- get ;;
     if bool_decide (metadata (self w) = ∅)
     then _create_new_index
     else _create_new_index)
    (fun e => raise (RuntimeError "Could not rebuild index" e)).



(** The operations of a service object after its construction. *)
Inductive op : Type :=
| Add (rid : string) (embedding : list scalar) (data : resume_data)
| AddBatch (resume_data_list : list batch_item)
| Search (query_embedding : list scalar) (top_k : Z) (threshold : scalar)
| Delete (rid : string)
| Rebuild.

Definition step (o : op) (w : world) : world :=
  match o with
  | Add rid embedding data => snd (add_vector rid embedding data w)
  | AddBatch l => snd (add_vectors_batch l w)
  | Search q top_k threshold => snd (search q top_k threshold w)
  | Delete rid => snd (delete_vector rid w)
  | Rebuild => snd (rebuild_index w)
  end.


End Service.
Arguments service scalar : clear implicits.
Arguments disk scalar : clear implicits.
Arguments world scalar : clear implicits.
Arguments batch_item scalar : clear implicits.
Arguments search_result scalar : clear implicits.
Arguments op scalar : clear implicits.

End FAISSService.

(** ** The route [DELETE /resumes/{resume_id}] of [api/routes.py] *)
Module routes.
Import FAISSService.

Inductive response : Type :=
| Message (message : string)                       (* {"message": ...} *)
| HTTPException (status_code : nat) (detail : string) (cause : exn).
                                         (* detail=f"detail: {str(e)}" *)

Section Routes.
Context {scalar : Type} `{!faiss.Backend scalar}.

Definition delete_resume (rid : string) (w : world scalar)
  : response * world scalar :=
  match delete_vector rid w with
  | (Ok success, w') =>
      if success
      then (Message ("Resume " ++ rid ++ " deleted successfully"), w')
      else (Message ("Resume " ++ rid
                       ++ " not found or deletion not supported"), w')
  | (Raise e, w') =>
      (HTTPException 500 "Failed to delete resume" e, w')
  end.
End Routes.
End routes.

(** ** A backend to run the service on: binary64 floats and an exact scan

    The kernel follows the flat index of the library: every stored row is
    scored against the query, the [k] best are collected in a heap ordered
    on (score, label) whose top, the worst kept so far, gives way only to a
    strictly better score, and the heap is unloaded from the worst up. *)
Module flat_ip.

Definition dot (a b : list float) : float :=
  fold_left (fun acc xy => (acc + fst xy * snd xy)%float) (combine a b)
    0%float.

(** [fvec_renorm_L2] on one row: untouched when its squared norm is not
    positive. *)
Definition renorm (v : list float) : list float :=
  let nr := dot v v in
  if (0 <? nr)%float
  then let inv_nr := (1 / PrimFloat.sqrt nr)%float in
       map (fun x => (x * inv_nr)%float) v
  else v.

Definition renorm_length (v : list float) : length (renorm v) = length v :=
  match (0 <? dot v v)%float as b
    return length (if b
                   then map (fun x => (x * (1 / PrimFloat.sqrt (dot v v)))%float) v
                   else v) = length v
  with
  | true => List.length_map _ v
  | false => eq_refl
  end.

(** (score, label) below (score', label') in the heap's order. *)
Definition below (a b : float * Z) : bool :=
  (fst a <? fst b)%float || ((fst a =? fst b)%float && (snd a <? snd b)%Z).

(** The heap, kept as a list from its top (the worst) upwards. *)
Fixpoint sift (x : float * Z) (heap : list (float * Z)) : list (float * Z) :=
  match heap with
  | [] => [x]
  | y :: heap' => if below y x then y :: sift x heap' else x :: heap
  end.

Definition offer (heap : list (float * Z)) (x : float * Z)
  : list (float * Z) :=
  match heap with
  | [] => []
  | top :: heap' => if (fst top <? fst x)%float then sift x heap' else heap
  end.

Definition lowest : float := (-0x1.fffffep+127)%float.

Definition labelled (xb : list (list float)) (q : list float)
  : list (float * Z) :=
  combine (map (dot q) xb) (map Z.of_nat (seq 0 (length xb))).

Definition heap_knn (xb : list (list float)) (q : list float) (k : nat)
  : list (float * Z) :=
  rev (fold_left offer (labelled xb q) (repeat (lowest, (-1)%Z) k)).

#[export] Instance backend : faiss.Backend float := {|
  faiss.score_ge := fun a b => (b <=? a)%float;
  faiss.normalize_L2 := renorm;
  faiss.normalize_L2_length := renorm_length;
  faiss.inner_product := dot;
  faiss.knn := heap_knn
|}.

End flat_ip.

(** ** Service objects to run the operations on *)
Module scenario.
Import faiss FAISSService flat_ip.

Definition no_data : resume_data :=
  {| rd_filename := None; rd_skills := None; rd_experience_years := None;
     rd_education := None; rd_sections := None; rd_created_at := None |}.

(** A new service of dimension 2 over an empty index directory. *)
Definition fresh : world float :=
  {| self := {| index := new 2; metadata := ∅; dimension := 2 |};
     fs := {| index_file := Absent; metadata_file := Absent |} |}.

Definition unit_x : list float := [1%float; 0%float].

(** Two resumes with the same embedding, appended one after the other. *)
Definition twins : world float :=
  step (Add "second" unit_x no_data) (step (Add "first" unit_x no_data) fresh).

(** The index directory of [twins] after its metadata file was lost, seen
    by a service that is about to initialise. *)
Definition orphan_index : world float :=
  {| self := self fresh;
     fs := {| index_file := index_file (fs twins); metadata_file := Absent |} |}.

(** A stored pair that disagrees: three vectors, and a metadata mapping
    without any key.  [_load_index] accepts it. *)
Definition unlabelled : world float :=
  snd (_initialize_index
         {| self := self fresh;
            fs := {| index_file :=
                       Stored {| d := 2; xb := [unit_x; unit_x; unit_x] |};
                     metadata_file := Stored ∅ |} |}).

(** A result for slot [i] with similarity 1. *)
Definition full_hit (i : Z) (rid : string) : search_result float :=
  {| similarity_score := 1%float; result_index := i;
     result_entry := make_entry rid no_data |}.

(** A batch whose second item has three components. *)
Definition ragged_batch : list (batch_item float) :=
  [ {| bi_embedding := unit_x; bi_resume_id := Some "third";
       bi_data := no_data |};
    {| bi_embedding := [1%float; 0%float; 0%float];
       bi_resume_id := Some "fourth"; bi_data := no_data |} ].

End scenario.

(** ** [EmbeddingService.compute_similarity]

    The numpy floats are read as real numbers: rounding, overflow and NaN
    are outside this model. *)
Module EmbeddingService.
Local Open Scope R_scope.

Fixpoint dot (a b : list R) : R :=
  match a, b with
  | x :: a', y :: b' => x * y + dot a' b'
  | _, _ => 0
  end.

(** [np.dot] of two one-dimensional arrays: a [ValueError] when their
    lengths differ. *)
Definition np_dot (a b : list R) : result R :=
  if Nat.eqb (length a) (length b) then Ok (dot a b) else Raise ValueError.

(** [np.linalg.norm] *)
Definition norm (a : list R) : R := sqrt (dot a a).

(** Python's [min(a, b)] and [max(a, b)]: the first argument unless the
    second is strictly beyond it. *)
Definition py_min (a b : R) : R := if Rlt_dec b a then b else a.
Definition py_max (a b : R) : R := if Rlt_dec a b then b else a.

Definition is_zero (x : R) : bool := if Req_dec_T x 0 then true else false.

(** The body of the [try]. *)
Definition similarity_body (embedding1 embedding2 : list R) : result R :=
  let norm1 := norm embedding1 in
  let norm2 := norm embedding2 in
  if is_zero norm1 || is_zero norm2 then Ok 0
  else
    match np_dot embedding1 embedding2 with
    | Ok ip =>
        let similarity := ip / (norm1 * norm2) in
        Ok (py_max 0 (py_min 1 similarity))
    | Raise e => Raise e
    end.

(** [except Exception: return 0.0] *)
Definition compute_similarity (embedding1 embedding2 : list R) : R :=
  match similarity_body embedding1 embedding2 with
  | Ok similarity => similarity
  | Raise _ => 0
  end.

End EmbeddingService.

(** ** [FAISSService]: the rest of the class *)
Module FAISSService_more.
Import faiss FAISSService.


Section More.
Context {scalar : Type} `{!Backend scalar}.


(** The two files hold what the object holds. *)
Definition synced (w : world scalar) : Prop :=
  index_file (fs w) = Stored (index (self w)) /\
  metadata_file (fs w) = Stored (metadata (self w)).

(** An element of [resume_data_list] with all its keys. *)
Definition item_of (t : string * list scalar * resume_data)
  : batch_item scalar :=
  {| bi_embedding := snd (fst t); bi_resume_id := Some (fst (fst t));
     bi_data := snd t |}.

(** [add_vector] called for the elements of a list, one after the other. *)
Definition add_each (l : list (string * list scalar * resume_data))
    (w : world scalar) : world scalar :=
  fold_left (fun w t => snd (add_vector (fst (fst t)) (snd (fst t)) (snd t) w))
    l w.

End More.
End FAISSService_more.

(** ** Python's [str] methods on white space *)
Module pystr.

(** [str.isspace] of one character: the white space of [\s]. *)
Definition isspace (c : ascii) : bool := re.is_space c.

Fixpoint lstrip (s : list ascii) : list ascii :=
  match s with
  | c :: s' => if isspace c then lstrip s' else s
  | [] => []
  end.

Fixpoint rstrip (s : list ascii) : list ascii :=
  match s with
  | [] => []
  | c :: s' =>
      match rstrip s' with
      | [] => if isspace c then [] else [c]
      | r => c :: r
      end
  end.

(** [s.strip()] *)
Definition strip (s : list ascii) : list ascii := rstrip (lstrip s).

(** [s.split()]: the maximal runs of characters that are not white space;
    [cur] is the run being read, last character first. *)
Fixpoint split_from (cur : list ascii) (s : list ascii)
  : list (list ascii) :=
  match s with
  | [] => match cur with [] => [] | _ => [rev cur] end
  | c :: s' =>
      if isspace c
      then match cur with
           | [] => split_from [] s'
           | _ => rev cur :: split_from [] s'
           end
      else split_from (c :: cur) s'
  end.

Definition split (s : list ascii) : list (list ascii) := split_from [] s.

(** [sep.join(words)] *)
Fixpoint join (sep : list ascii) (words : list (list ascii)) : list ascii :=
  match words with
  | [] => []
  | [w] => w
  | w :: words' => w ++ sep ++ join sep words'
  end.

(** White space that is a single blank at a time and never in front:
    [prev] tells whether the character before was white space (or the
    text starts here). *)
Fixpoint blanks_single (prev : bool) (s : list ascii) : bool :=
  match s with
  | [] => true
  | c :: s' =>
      if isspace c
      then Ascii.eqb c " " && negb prev && blanks_single true s'
      else blanks_single false s'
  end.

(** A run of characters without white space, and a word: such a run that
    is not empty. *)
Definition nonspace (w : list ascii) : Prop :=
  Forall (fun c => isspace c = false) w.

Definition is_word (w : list ascii) : Prop := w <> [] /\ nonspace w.

(** What [split_from] returns when the text ends: the run read so far,
    if there is one. *)
Definition flush (cur : list ascii) : list (list ascii) :=
  match cur with [] => [] | _ => [rev cur] end.

End pystr.

(** ** [EmbeddingService]: text preparation and model choice *)
Module EmbeddingService_more.
Import pystr.

(** [settings.MAX_SEQUENCE_LENGTH] *)
Definition MAX_SEQUENCE_LENGTH : nat := 512.

(** [" ".join(text.strip().split())] *)
Definition collapse (s : list ascii) : list ascii :=
  join [" "%char] (split (strip s)).

(** [_preprocess_text] on a [str] argument. *)
Definition _preprocess_text (text : string) : string :=
  match text with
  | EmptyString => ""
  | _ =>
      let t := collapse (list_ascii_of_string text) in
      let t := if Nat.ltb (MAX_SEQUENCE_LENGTH * 4) (length t)
               then firstn (MAX_SEQUENCE_LENGTH * 4) t
               else t in
      string_of_list_ascii t
  end.

(** The names [_initialize_model] tries after the configured one. *)
Definition fallbacks : list string :=
  [ "sentence-transformers/all-MiniLM-L6-v2";
    "sentence-transformers/all-mpnet-base-v2";
    "sentence-transformers/paraphrase-MiniLM-L6-v2" ].

Section Model.
(** Loading a model by name and encoding the test sentence: the length of
    the test embedding, or the exception either step raises. *)
Variable load : string -> result nat.

(** The loop [for model_name in model_options]; [last_name] is
    [model_options[-1]].  A failure of an option whose name is [last_name]
    raises at once; [Ok None] is the loop running out with no model set. *)
Fixpoint try_models (last_name : string) (options : list string)
  : result (option (string * nat)) :=
  match options with
  | [] => Ok None
  | model_name :: options' =>
      match load model_name with
      | Ok actual_dimension => Ok (Some (model_name, actual_dimension))
      | Raise e =>
          if String.eqb model_name last_name
          then Raise (RuntimeError
                        "Could not initialize any embedding model. Last error"
                        e)
          else try_models last_name options'
      end
  end.

(** [_initialize_model]: the name and the dimension it leaves in
    [settings.EMBEDDING_MODEL] and [settings.EMBEDDING_DIMENSION]. *)
Definition _initialize_model (configured : string)
  : result (option (string * nat)) :=
  let model_options := configured :: fallbacks in
  try_models (List.last model_options "") model_options.
End Model.

End EmbeddingService_more.

(** ** [ResumeParser]: sections *)
Module ResumeParser_more.
Import re ResumeParser pystr.

(** [re.search]: the span (start, end) of the leftmost match in [s],
    counted from [pos], the position of the head of [s]. *)
Fixpoint search_span (icase : bool) (r : regex) (s : list ascii) (pos : nat)
  : option (nat * nat) :=
  match match_at icase r s with
  | Some (rest, _) => Some (pos, pos + (length s - length rest))
  | None =>
      match s with
      | [] => None
      | _ :: s' => search_span icase r s' (S pos)
      end
  end.

Definition spaces1 : regex := Rep is_space 1 None.       (* \s+ *)
Definition colon : regex := Opt (Lit ":").               (* :? *)

(** [word:?] *)
Definition header (w : string) : regex := cat [word w; colon].
(** [first\s+second:?] *)
Definition header2 (first second : string) : regex :=
  cat [word first; spaces1; word second; colon].
(** [(?:first\s+)?second:?] *)
Definition header_opt (first second : string) : regex :=
  cat [Opt (cat [word first; spaces1]); word second; colon].

(** The dictionary of [_load_section_patterns], in its order. *)
Definition section_patterns : list (string * list regex) :=
  [ ("experience",
     [header_opt "work" "experience"; header2 "professional" "experience";
      header2 "employment" "history"; header2 "career" "history"]);
    ("education",
     [header "education"; header2 "academic" "background";
      header "qualifications"]);
    ("skills",
     [header_opt "technical" "skills"; header "competencies";
      header "technologies"; header "expertise"]);
    ("summary",
     [header_opt "professional" "summary"; header "profile";
      header "objective"; header2 "about" "me"]);
    ("projects",
     [header "projects"; header2 "key" "projects";
      header2 "notable" "projects"]);
    ("certifications",
     [header "certifications"; header "certificates";
      header2 "professional" "certifications"]) ].

(** [all_patterns] of [_find_next_section]. *)
Definition all_patterns : list regex := concat (map snd section_patterns).

(** Python's [min] of a list that is not empty. *)
Definition min_of (x : nat) (l : list nat) : nat := fold_right Nat.min x l.

Definition _find_next_section (text : list ascii) (start_pos : nat)
  : option nat :=
  let next_positions :=
    omap (fun pattern =>
            match search_span true pattern (skipn start_pos text) 0 with
            | Some (start, _) => Some (start_pos + start)
            | None => None
            end) all_patterns in
  match next_positions with
  | [] => None
  | x :: l => Some (min_of x l)
  end.

(** [text[start:stop]] for positions within the text. *)
Definition slice (text : list ascii) (start stop : nat) : list ascii :=
  firstn (stop - start) (skipn start text).

(** The text stored for a section whose header ends at [start_pos]; a
    next position of 0 counts as none ([if next_section:]). *)
Definition section_text (text : list ascii) (start_pos : nat) : list ascii :=
  let section_text :=
    match _find_next_section text start_pos with
    | Some (S n) => strip (slice text start_pos (S n))
    | _ => strip (skipn start_pos text)
    end in
  firstn 1000 section_text.

(** The loop over the patterns of one section: the end of the match of
    the first pattern that matches. *)
Fixpoint first_header (text : list ascii) (patterns : list regex)
  : option nat :=
  match patterns with
  | [] => None
  | pattern :: patterns' =>
      match search_span true pattern text 0 with
      | Some (_, stop) => Some stop
      | None => first_header text patterns'
      end
  end.

(** [_extract_sections]: the dictionary as the list of its items, in the
    order of insertion. *)
Definition _extract_sections (text : string) : list (string * string) :=
  let t := list_ascii_of_string text in
  omap (fun kind =>
          match first_header t (snd kind) with
          | Some start_pos =>
              Some (fst kind, string_of_list_ascii (section_text t start_pos))
          | None => None
          end) section_patterns.

(** The least and, if there is one, the greatest number of characters a
    match of the pattern takes. *)
Fixpoint min_len (r : regex) : nat :=
  match r with
  | Eps => 0
  | Lit _ => 1
  | Set_ _ => 1
  | Cat r1 r2 => min_len r1 + min_len r2
  | Opt _ => 0
  | Rep _ lo _ => lo
  | Group _ r' => min_len r'
  end.

Fixpoint max_len (r : regex) : option nat :=
  match r with
  | Eps => Some 0
  | Lit _ => Some 1
  | Set_ _ => Some 1
  | Cat r1 r2 =>
      match max_len r1, max_len r2 with
      | Some a, Some b => Some (a + b)
      | _, _ => None
      end
  | Opt r' => max_len r'
  | Rep _ _ hi => hi
  | Group _ r' => max_len r'
  end.

(** No white space in front. *)
Definition starts_clean (v : list ascii) : Prop :=
  match v with
  | c :: _ => isspace c = false
  | [] => True
  end.

End ResumeParser_more.

(** ** [ResumeParser]: skills and languages, found as whole words *)
Module ResumeParser_words.
Import re.

(** [str.lower] on a character of Latin-1. *)
Definition py_lower (c : ascii) : ascii :=
  let n := code c in
  if ((65 <=? n) && (n <=? 90)
      || (192 <=? n) && (n <=? 222) && negb (n =? 215))%N
  then ascii_of_N (n + 32)
  else c.

Definition str_lower (s : list ascii) : list ascii := map py_lower s.

(** [\w] on a [str] pattern: letters, decimal digits and the other
    numeric characters, and the underscore. *)
Definition re_w (c : ascii) : bool :=
  let n := code c in
  ((48 <=? n) && (n <=? 57) || (65 <=? n) && (n <=? 90) || (n =? 95)
   || (97 <=? n) && (n <=? 122)
   || (n =? 170) || (n =? 178) || (n =? 179) || (n =? 181) || (n =? 185)
   || (n =? 186) || (188 <=? n) && (n <=? 190)
   || (192 <=? n) && (n <=? 214) || (216 <=? n) && (n <=? 246)
   || (248 <=? n) && (n <=? 255))%N.

(** Whether the character next to a position, if there is one, is a word
    character. *)
Definition word_side (c : option ascii) : bool :=
  match c with
  | Some x => re_w x
  | None => false
  end.

(** [\b]: exactly one of the two neighbours of the position is a word
    character. *)
Definition boundary (prev next : option ascii) : bool :=
  xorb (word_side prev) (word_side next).

(** The last character of [prev] followed by [w]. *)
Definition last_char (prev : option ascii) (w : list ascii) : option ascii :=
  fold_left (fun _ x => Some x) w prev.

(** The text after the literal [w] at the head of [s]. *)
Fixpoint literal (w s : list ascii) : option (list ascii) :=
  match w, s with
  | [], _ => Some s
  | a :: w', x :: s' => if Ascii.eqb a x then literal w' s' else None
  | _ :: _, [] => None
  end.

(** A match of [\b w \b] at the head of [s], the character before being
    [prev]. *)
Definition word_here (w : list ascii) (prev : option ascii) (s : list ascii)
  : bool :=
  boundary prev (head s)
  && match literal w s with
     | Some rest => boundary (last_char prev w) (head rest)
     | None => false
     end.

(** [re.search(r'\b' + re.escape(w) + r'\b', s)] finds a match. *)
Fixpoint search_word (w : list ascii) (prev : option ascii) (s : list ascii)
  : bool :=
  word_here w prev s
  || match s with
     | [] => false
     | x :: s' => search_word w (Some x) s'
     end.

(** [re.search(r'\b' + re.escape(name.lower()) + r'\b', text_lower)] *)
Definition mentions (text_lower : list ascii) (name : string) : bool :=
  search_word (str_lower (list_ascii_of_string name)) None text_lower.

Definition skills_patterns : list (string * list string) :=
  [ ("programming",
     ["Python"; "Java"; "JavaScript"; "TypeScript"; "C++"; "C#"; "Go"; "Rust";
      "Ruby"; "PHP"; "Swift"; "Kotlin"; "Scala"; "R"; "MATLAB"; "SQL"]);
    ("web_technologies",
     ["HTML"; "CSS"; "React"; "Angular"; "Vue.js"; "Node.js"; "Express";
      "Django"; "Flask"; "Spring"; "ASP.NET"; "Ruby on Rails"]);
    ("databases",
     ["MySQL"; "PostgreSQL"; "MongoDB"; "Redis"; "SQLite"; "Oracle";
      "SQL Server"; "Cassandra"; "DynamoDB"; "Elasticsearch"]);
    ("cloud_platforms",
     ["AWS"; "Azure"; "Google Cloud"; "Docker"; "Kubernetes"; "Jenkins";
      "GitLab"; "GitHub Actions"; "Terraform"; "Ansible"]);
    ("data_science",
     ["Machine Learning"; "Deep Learning"; "TensorFlow"; "PyTorch"; "Pandas";
      "NumPy"; "Scikit-learn"; "Jupyter"; "Data Analysis"; "Statistics"]);
    ("tools",
     ["Git"; "Jira"; "Confluence"; "Slack"; "Trello"; "Agile"; "Scrum";
      "Linux"; "Windows"; "macOS"; "VS Code"; "IntelliJ"]) ].

(** The order of [str]: by code points, a proper prefix first. *)
Definition str_le (a b : string) : Prop := String.leb a b = true.

#[export] Instance str_le_dec : RelDecision str_le.
Proof. intros a b. unfold str_le. apply _. Defined.

(** [sorted(list(set(l)))]: the distinct elements, in ascending order. *)
Definition sorted_set (l : list string) : list string :=
  merge_sort str_le (remove_dups l).

Definition _extract_skills (text : string) : list string :=
  let text_lower := str_lower (list_ascii_of_string text) in
  let found_skills :=
    filter (fun skill => mentions text_lower skill = true)
      (concat (map snd skills_patterns)) in
  sorted_set found_skills.

Definition common_languages : list string :=
  ["English"; "Spanish"; "French"; "German"; "Italian"; "Portuguese";
   "Chinese"; "Japanese"; "Korean"; "Hindi"; "Arabic"; "Russian";
   "Dutch"; "Swedish"; "Norwegian"; "Danish"; "Finnish"].

Definition _extract_languages (text : string) : list string :=
  let text_lower := str_lower (list_ascii_of_string text) in
  filter (fun lang => mentions text_lower lang = true) common_languages.

(** The literal [w] stands in [s] as a whole word: somewhere in [s], with
    a word boundary on either side. *)
Definition whole_word (w s : list ascii) : Prop :=
  exists before after,
    s = before ++ w ++ after /\
    boundary (last_char None before) (head (w ++ after)) = true /\
    boundary (last_char None (before ++ w)) (head after) = true.

End ResumeParser_words.

(** ** The maintenance routes of [backend/api/routes.py] *)
Module routes_more.
Import FAISSService routes.

(** What [GET /resumes/count] answers. *)
Inductive count_response : Type :=
| Total_resumes (count : nat)                   (* {"total_resumes": count} *)
| Count_failed (status_code : nat) (detail : string).

Section Routes.
Context {scalar : Type} `{!faiss.Backend scalar}.

(** [POST /index/rebuild] *)
Definition rebuild_index (w : world scalar) : response * world scalar :=
  match FAISSService.rebuild_index w with
  | (Ok _, w') => (Message "Index rebuilt successfully", w')
  | (Raise e, w') => (HTTPException 500 "Failed to rebuild index" e, w')
  end.

(** [GET /resumes/count] *)
Definition get_resume_count (w : world scalar)
  : count_response * world scalar :=
  match get_total_vectors w with
  | (Ok count, w') => (Total_resumes count, w')
  | (Raise _, w') => (Count_failed 500 "Failed to get resume count", w')
  end.

End Routes.
End routes_more.

(** ** The engine against the declarative reading *)
Module re_facts.
Import re re_sem.

Lemma rep_sound {R} p lo hi s (k : list ascii -> option R) res :
  rep p lo hi s k = Some res ->
  exists taken s', s = taken ++ s' /\ lo <= length taken /\
    within hi (length taken) /\ forallb p taken = true /\ k s' = Some res.
Proof.
  revert lo hi.
  induction s as [|x s IH]; intros lo hi H; simpl in H.
  - destruct lo; [|discriminate].
    exists [], []. repeat split; simpl; auto. destruct hi; simpl; lia.
  - assert (Hstop : match lo with 0 => k (x :: s) | S _ => None end = Some res ->
              exists taken s', x :: s = taken ++ s' /\ lo <= length taken /\
                within hi (length taken) /\ forallb p taken = true /\
                k s' = Some res).
    { destruct lo; [|discriminate]. intros Hk.
      exists [], (x :: s). repeat split; simpl; auto. destruct hi; simpl; lia. }
    destruct (p x) eqn:Hp; simpl in H; [|auto].
    destruct hi as [[|h]|]; simpl in H; auto.
    + destruct (rep p (pred lo) (Some h) s k) eqn:Hr; [|auto].
      injection H as <-. apply IH in Hr as (t & s' & -> & Hlo & Hhi & Hall & Hk).
      exists (x :: t), s'. simpl in *. rewrite Hp, Hall.
      repeat split; auto; lia.
    + destruct (rep p (pred lo) None s k) eqn:Hr; [|auto].
      injection H as <-. apply IH in Hr as (t & s' & -> & Hlo & Hhi & Hall & Hk).
      exists (x :: t), s'. simpl in *. rewrite Hp, Hall.
      repeat split; auto; lia.
Qed.

(** Whatever the engine returns went through a match of the pattern. *)
Lemma run_sound {R} icase r :
  forall s c (k : list ascii -> caps -> option R) res,
    run icase r s c k = Some res ->
    exists s' c', matches icase r s c s' c' /\ k s' c' = Some res.
Proof.
  induction r as [|a|p|r1 IH1 r2 IH2|r IH|p lo hi|i r IH];
    intros s c k res H; simpl in H.
  - exists s, c. split; [constructor|done].
  - destruct s as [|x s]; [discriminate|].
    destruct (lit_eqb icase a x) eqn:E; [|discriminate].
    exists s, c. split; [by constructor|done].
  - destruct s as [|x s]; [discriminate|].
    destruct (p x) eqn:E; [|discriminate].
    exists s, c. split; [by constructor|done].
  - apply IH1 in H as (s1 & c1 & M1 & H).
    apply IH2 in H as (s2 & c2 & M2 & H).
    exists s2, c2. split; [econstructor; eauto|done].
  - destruct (run icase r s c k) eqn:E.
    + injection H as ->. apply IH in E as (s' & c' & M & E).
      exists s', c'. split; [by constructor|done].
    + exists s, c. split; [apply M_Opt_none|done].
  - apply rep_sound in H as (t & s' & -> & Hlo & Hhi & Hall & Hk).
    exists s', c. split; [by constructor|done].
  - apply IH in H as (s' & c' & M & H).
    exists s', (set_cap i (consumed s s') c'). split; [by constructor|done].
Qed.

Lemma match_at_sound icase r s rest c :
  match_at icase r s = Some (rest, c) -> matches icase r s no_caps rest c.
Proof.
  unfold match_at. intros H.
  apply run_sound in H as (s' & c' & M & [= <- <-]). exact M.
Qed.

(** A match leaves a suffix of the text. *)
Lemma matches_suffix icase r s c s' c' :
  matches icase r s c s' c' -> exists taken, s = taken ++ s'.
Proof.
  induction 1 as [s c|a x s c H|p x s c H|r1 r2 s c s1 c1 s2 c2 _ [t1 ->] _ [t2 ->]
                 |r s c s' c' _ IH| r s c|p lo hi t s c|i r s c s' c' _ IH].
  - by exists [].
  - by exists [x].
  - by exists [x].
  - exists (t1 ++ t2). by rewrite <- app_assoc.
  - exact IH.
  - by exists [].
  - by exists t.
  - exact IH.
Qed.

Lemma consumed_app (t s : list ascii) : consumed (t ++ s) s = t.
Proof.
  unfold consumed. rewrite length_app.
  replace (length t + length s - length s) with (length t) by lia.
  by rewrite take_app_length.
Qed.

(** A pattern without groups leaves the groups as they were. *)
Lemma matches_no_groups icase r s c s' c' :
  matches icase r s c s' c' -> ngroups r = 0 -> c' = c.
Proof.
  induction 1; simpl; intros Hn; try done.
  - rewrite IHmatches2, IHmatches1; [done|lia..].
  - auto.
Qed.

(** Every element of the scan is a match of the pattern at some position
    of the text: [before ++ whole ++ rest] is the text scanned. *)
Lemma scan_sound icase r s skip whole c :
  (whole, c) ∈ scan icase r s skip ->
  exists before rest,
    s = before ++ whole ++ rest /\
    matches icase r (whole ++ rest) no_caps rest c.
Proof.
  revert skip. induction s as [|x s IH]; intros skip Hin.
  - simpl in Hin. destruct skip; [|by apply elem_of_nil in Hin].
    destruct (match_at icase r []) as [[rest c0]|] eqn:E;
      [|by apply elem_of_nil in Hin].
    apply list_elem_of_singleton in Hin as [= -> ->].
    apply match_at_sound in E.
    destruct (matches_suffix _ _ _ _ _ _ E) as [t Ht].
    symmetry in Ht. apply app_eq_nil in Ht as [-> ->].
    by exists [], [].
  - simpl in Hin. destruct skip as [|n].
    + destruct (match_at icase r (x :: s)) as [[rest c0]|] eqn:E.
      * apply elem_of_cons in Hin as [[= -> ->]|Hin].
        -- apply match_at_sound in E.
           destruct (matches_suffix _ _ _ _ _ _ E) as [t Ht].
           rewrite Ht, consumed_app. exists [], rest. split; [done|].
           by rewrite <- Ht.
        -- apply IH in Hin as (b & rest' & -> & M).
           by exists (x :: b), rest'.
      * apply IH in Hin as (b & rest' & -> & M). by exists (x :: b), rest'.
    + apply IH in Hin as (b & rest' & -> & M). by exists (x :: b), rest'.
Qed.






(** The text a group took lies at the head of the match when the group
    opens the pattern and nothing after it captures. *)
Lemma leading_group icase i g rest_re s c s' :
  ngroups rest_re = 0 ->
  matches icase (Cat (Opt (Group i g)) rest_re) s no_caps s' c ->
  exists tail, consumed s s' = default [] (c i) ++ tail.
Proof.
  intros Hn M.
  inversion M as [| | |r1 r2 s0 c0 s1 c1 s2 c2 M1 M2| | | |]; subst.
  apply (matches_no_groups _ _ _ _ _ _ M2) in Hn as ->.
  destruct (matches_suffix _ _ _ _ _ _ M2) as [t2 ->].
  inversion M1 as [| | | |r s0 c0 s1 c1' MG| r s0 c0| |]; subst.
  - inversion MG as [| | | | | | |j r s0 c0 s1 c1' Mg]; subst.
    destruct (matches_suffix _ _ _ _ _ _ Mg) as [t1 ->].
    unfold set_cap. rewrite Nat.eqb_refl. simpl.
    rewrite consumed_app, (app_assoc t1 t2 s'), consumed_app. by exists t2.
  - simpl. rewrite consumed_app. by exists t2.
Qed.

End re_facts.

(** ** Cosine similarity *)
Module EmbeddingService_facts.
Import EmbeddingService.
Local Open Scope R_scope.






End EmbeddingService_facts.

(** ** Field extraction *)
Module ResumeParser_facts.
Import re re_sem re_facts ResumeParser.

Example findall_years_experience :
  findall true (nth 0 patterns Eps)
    "12 years experience, 3 YEARS OF EXPERIENCE and 4+ year experience"
  = [FStr "12"; FStr "3"; FStr "4"].
Proof. vm_compute. reflexivity. Qed.

Example experience_years_none :
  _extract_experience_years "Python developer since 2015" = None.
Proof. vm_compute. reflexivity. Qed.

Example experience_years_over :
  _extract_experience_years "Over 10 years, of which 3 years in QA" = Some 3%N.
Proof. vm_compute. reflexivity. Qed.

Example phone_backtracks_to_ten_digits :
  search_group false phone_pattern "tel 5551234567." = Some "5551234567" /\
  _extract_contact_info_phone "tel 5551234567." = Some "".
Proof. vm_compute. split; reflexivity. Qed.







Lemma string_of_list_ascii_app (a b : list ascii) :
  string_of_list_ascii (a ++ b)
  = (string_of_list_ascii a ++ string_of_list_ascii b)%string.
Proof. induction a as [|x a IH]; simpl; [done|]. by rewrite IH. Qed.

(** C8, as the code has it.  The phone channel is set exactly when the
    phone pattern matches, and what is stored is text of the first match
    kept verbatim, from its first character on: nothing is stripped. *)
Theorem phone_taken_from_first_match (text : string) :
  match search_group false phone_pattern text with
  | None => _extract_contact_info_phone text = None
  | Some whole =>
      exists stored tail,
        _extract_contact_info_phone text = Some stored /\
        whole = (stored ++ tail)%string
  end.
Proof.
  unfold search_group, _extract_contact_info_phone, findall.
  destruct (finditer false phone_pattern text) as [|[whole c] ms] eqn:Hscan;
    [done|].
  assert (Hin : (whole, c) ∈ finditer false phone_pattern text)
    by (rewrite Hscan; left).
  apply scan_sound in Hin as (before & rest & _ & M).
  apply leading_group with (i := 1) in M as [tail Htail]; [|reflexivity].
  rewrite consumed_app in Htail.
  exists (group_text c 1), (string_of_list_ascii tail). split; [done|].
  simpl. rewrite Htail, string_of_list_ascii_app. unfold group_text.
  by destruct (c 1).
Qed.

(** C8, as the specification words it, fails: of the match
    "+1 555-123-4567" the stored value is "+1 ", separator included, and
    neither "15551234567" nor "+15551234567". *)
Lemma phone_not_stripped_digits :
  let text := "call +1 555-123-4567 now" in
  search_group false phone_pattern text = Some "+1 555-123-4567" /\
  _extract_contact_info_phone text = Some "+1 " /\
  spec_phone_values "+1 555-123-4567" = ["15551234567"; "+15551234567"] /\
  "+1 " ∉ spec_phone_values "+1 555-123-4567".
Proof.
  vm_compute. repeat split.
  intros H. repeat (apply elem_of_cons in H as [H|H]; [discriminate H|]).
  by apply elem_of_nil in H.
Qed.

End ResumeParser_facts.

(** ** The vector index service *)
Module FAISSService_facts.
Import faiss FAISSService.

Ltac run_service :=
  unfold _initialize_index, _load_index, _create_new_index, _save_index,
    add_vector, add_vectors_batch, search, rebuild_index, delete_vector,
    get_total_vectors, read_index, read_metadata, try_except, bind, ret,
    raise, get, lift, set_index, set_metadata, write_index_file,
    write_metadata_file; simpl.

Section Facts.
Context {scalar : Type} `{!Backend scalar}.


Lemma batch_turn_raise (n : nat) (items : list (batch_item scalar)) (e : exn) :
  fold_left (batch_turn n) items (Raise e) = Raise e.
Proof. induction items as [|it items IH]; simpl; [done|apply IH]. Qed.

(** The rows the loop collects are the embeddings of the items, in order. *)
Lemma batch_fold_rows (n : nat) (items : list (batch_item scalar))
    embs mb acc :
  fold_left (batch_turn n) items (Ok (embs, mb)) = Ok acc ->
  fst acc = embs ++ map bi_embedding items.
Proof.
  revert embs mb. induction items as [|it items IH]; intros embs mb; simpl.
  - intros [= <-]. simpl. by rewrite app_nil_r.
  - destruct (bi_resume_id it) as [rid|].
    + intros H. apply IH in H. by rewrite H, <- app_assoc.
    + by rewrite batch_turn_raise.
Qed.

Lemma vstack_ok (rows out : list (list scalar)) :
  vstack rows = Ok out ->
  out = rows /\ rows <> [] /\ Forall (fun r => length r = shape1 rows) rows.
Proof.
  unfold vstack. destruct rows as [|r rs]; [done|].
  destruct (forallb _ rs) eqn:Hall; [|done]. intros [= <-].
  repeat split; [done|]. simpl. constructor; [done|].
  apply Forall_forall. intros r' Hr'.
  rewrite forallb_forall in Hall. apply Nat.eqb_eq, Hall.
  by apply list_elem_of_In.
Qed.

(** C5. A batch with one item of the wrong length fails as a whole, and
    nothing of it is committed: the service object and the files are what
    they were. *)
Theorem add_vectors_batch_atomic (w : world scalar)
    (items : list (batch_item scalar)) :
  (exists item, item ∈ items /\
                length (bi_embedding item) <> d (index (self w))) ->
  exists e,
    add_vectors_batch items w
    = (Raise (RuntimeError "Could not add vectors to index" e), w)
    /\ ntotal (index (self (snd (add_vectors_batch items w))))
       = ntotal (index (self w))
    /\ metadata (self (snd (add_vectors_batch items w))) = metadata (self w).
Proof.
  intros (bad & Hin & Hbad).
  assert (E : exists e, add_vectors_batch items w
              = (Raise (RuntimeError "Could not add vectors to index" e), w)).
  { run_service.
    destruct (fold_left _ items _) as [acc|e] eqn:Hfold; [|by eexists].
    apply batch_fold_rows in Hfold. simpl in Hfold.
    destruct (vstack (fst acc)) as [rows|e] eqn:Hstack; [|by eexists].
    apply vstack_ok in Hstack as (-> & Hne & Hall).
    unfold add.
    destruct (Nat.eqb _ _) eqn:Hshape; [|by eexists].
    exfalso. apply Nat.eqb_eq in Hshape. apply Hbad.
    assert (Hrow : bi_embedding bad ∈ fst acc).
    { rewrite Hfold. apply list_elem_of_fmap. by exists bad. }
    rewrite Forall_forall in Hall. rewrite (Hall _ Hrow), <- Hshape.
    destruct (fst acc) as [|r rs]; [done|]. simpl.
    by rewrite normalize_L2_length. }
  destruct E as [e E]. exists e. by rewrite E.
Qed.

(** C3, as the code has it.  With exactly one of the two files present,
    [_load_index] on its own raises, but [_initialize_index] does not
    call it: it returns normally with a new empty index of the
    configured dimension and writes both files anew. *)
Theorem initialize_with_one_artifact (w : world scalar) :
  xorb (exists_ (index_file (fs w))) (exists_ (metadata_file (fs w))) = true ->
  (exists e,
     fst (_load_index w) = Raise (RuntimeError "Could not load FAISS index" e))
  /\ _initialize_index w
     = (Ok tt,
        {| self := {| index := new (dimension (self w));
                      metadata := ∅;
                      dimension := dimension (self w) |};
           fs := {| index_file := Stored (new (dimension (self w)));
                    metadata_file := Stored ∅ |} |}).
Proof.
  destruct w as [[idx md dim] [fi fm]]. simpl. intros Hone. split.
  - run_service. destruct fi, fm; simpl in *; try done; by eexists.
  - run_service. by destruct fi, fm.
Qed.

(** C9. Deleting by identifier reports failure and touches nothing: the
    service returns [False], and the route answers with its message of a
    resume not found or a deletion not supported, never with the message
    of a successful deletion. *)
Theorem delete_not_supported (w : world scalar) (rid : string) :
  delete_vector rid w = (Ok false, w)
  /\ routes.delete_resume rid w
     = (routes.Message
          ("Resume " ++ rid ++ " not found or deletion not supported"), w)
  /\ fst (routes.delete_resume rid w)
     <> routes.Message ("Resume " ++ rid ++ " deleted successfully").
Proof.
  repeat split.
  unfold routes.delete_resume, delete_vector, ret. simpl.
  intros [= H]. induction rid as [|c rid IH]; [discriminate H|].
  simpl in H. by injection H.
Qed.


(** What [add_vector] does, in one piece. *)
Lemma add_vector_run (w : world scalar) (rid : string) (v : list scalar)
    (data : resume_data) :
  add_vector rid v data w =
  if Nat.eqb (length v) (d (index (self w)))
  then
    let i := {| d := d (index (self w));
                xb := xb (index (self w)) ++ [normalize_L2 v] |} in
    let md := <[str (Z.of_nat (ntotal i) - 1) := make_entry rid data]>
                (metadata (self w)) in
    (Ok tt, {| self := {| index := i; metadata := md;
                          dimension := dimension (self w) |};
               fs := {| index_file := Stored i; metadata_file := Stored md |} |})
  else (Raise (RuntimeError "Could not add vector to index" AssertionError), w).
Proof.
  run_service. unfold add. simpl. rewrite normalize_L2_length.
  by destruct (Nat.eqb _ _).
Qed.

Lemma rebuild_index_run (w : world scalar) :
  rebuild_index w
  = (Ok tt,
     {| self := {| index := new (dimension (self w)); metadata := ∅;
                   dimension := dimension (self w) |};
        fs := {| index_file := Stored (new (dimension (self w)));
                 metadata_file := Stored ∅ |} |}).
Proof. run_service. by destruct (bool_decide _). Qed.

Lemma search_state (w : world scalar) q top_k threshold :
  snd (search q top_k threshold w) = w.
Proof.
  run_service. destruct (Nat.eqb _ 0); [done|].
  by destruct (faiss.search _ _ _).
Qed.




Lemma add_vectors_batch_raise (w w' : world scalar)
    (items : list (batch_item scalar)) (e : exn) :
  add_vectors_batch items w = (Raise e, w') -> w' = w.
Proof.
  run_service.
  destruct (fold_left _ items _) as [acc|e']; [|by intros [= _ <-]].
  destruct (vstack _) as [rows|e']; [|by intros [= _ <-]].
  unfold add. destruct (Nat.eqb _ _); [done|]. by intros [= _ <-].
Qed.


Lemma keep_Some (md : gmap string entry) (threshold : scalar)
    (hit : scalar * Z) (r : search_result scalar) :
  keep md threshold hit = Some r ->
  score_ge (fst hit) threshold = true /\
  similarity_score r = fst hit /\ result_index r = snd hit /\
  md !! str (snd hit) = Some (result_entry r).
Proof.
  destruct hit as [s i]. unfold keep. simpl.
  destruct (score_ge s threshold); [|done].
  destruct (md !! str i) as [e|]; [|done]. by intros [= <-].
Qed.





(** What [search] returns: nothing on an empty index, the library's
    failure when it refuses the query, and otherwise the hits that pass
    the loop. *)
Lemma search_run (w : world scalar) (q : list scalar) (top_k : Z)
    (threshold : scalar) :
  search q top_k threshold w =
  if Nat.eqb (ntotal (index (self w))) 0 then (Ok [], w)
  else
    match faiss.search (index (self w)) (normalize_L2 q)
            (Z.min top_k (Z.of_nat (ntotal (index (self w))))) with
    | Ok hits => (Ok (omap (keep (metadata (self w)) threshold) hits), w)
    | Raise e => (Raise (RuntimeError "Could not perform search" e), w)
    end.
Proof.
  run_service. destruct (Nat.eqb _ 0); [done|].
  by destruct (faiss.search _ _ _).
Qed.


(** The results of [search] carry the metadata of their slot: a hit whose
    slot has no key in the mapping is not among them. *)
Lemma search_only_with_metadata (w w' : world scalar) (q : list scalar)
    (top_k : Z) (threshold : scalar) (results : list (search_result scalar)) :
  search q top_k threshold w = (Ok results, w') ->
  forall r, r ∈ results ->
    metadata (self w) !! str (result_index r) = Some (result_entry r).
Proof.
  rewrite search_run. destruct (Nat.eqb _ 0).
  - intros [= <- _] r Hr. by apply elem_of_nil in Hr.
  - destruct (faiss.search _ _ _) as [hits|e]; [|done].
    intros [= <- _] r Hr.
    apply list_elem_of_omap in Hr as (hit & _ & Hkeep).
    apply keep_Some in Hkeep as (_ & _ & -> & Hmd). exact Hmd.
Qed.

End Facts.
End FAISSService_facts.

(** ** The service on the float backend *)
Module scenario_facts.
Import faiss FAISSService FAISSService_facts flat_ip scenario.



Example search_finds_itself :
  search unit_x 1 0.75%float twins = (Ok [full_hit 0 "first"], twins).
Proof. vm_compute. reflexivity. Qed.



Lemma initialize_with_one_artifact_witness :
  xorb (exists_ (index_file (fs orphan_index)))
       (exists_ (metadata_file (fs orphan_index))) = true /\
  _initialize_index orphan_index
  = (Ok tt,
     {| self := {| index := new 2; metadata := ∅; dimension := 2 |};
        fs := {| index_file := Stored (new 2); metadata_file := Stored ∅ |} |}).
Proof.
  split; [reflexivity|].
  apply (proj2 (initialize_with_one_artifact orphan_index eq_refl)).
Defined.

(** C3, as the specification words it, fails.  The index file holds two
    vectors and the metadata file is missing: initialisation does not
    fail, the service starts with no vector, and the index file is
    overwritten with the empty index. *)
Lemma initialize_orphan_index_starts_fresh :
  index_file (fs orphan_index)
  = Stored {| d := 2; xb := [unit_x; unit_x] |} /\
  metadata_file (fs orphan_index) = Absent /\
  fst (_initialize_index orphan_index) = Ok tt /\
  ntotal (index (self (snd (_initialize_index orphan_index)))) = 0 /\
  metadata (self (snd (_initialize_index orphan_index))) = ∅ /\
  index_file (fs (snd (_initialize_index orphan_index))) = Stored (new 2).
Proof. vm_compute. repeat split. Qed.


Lemma add_vectors_batch_atomic_witness :
  exists e,
    add_vectors_batch ragged_batch twins
    = (Raise (RuntimeError "Could not add vectors to index" e), twins).
Proof.
  destruct (add_vectors_batch_atomic twins ragged_batch) as (e & Hrun & _).
  - exists {| bi_embedding := [1%float; 0%float; 0%float];
              bi_resume_id := Some "fourth"; bi_data := no_data |}.
    split; [right; left|simpl; lia].
  - by exists e.
Defined.


(** C10. Whatever the backend, a result of [search] has the metadata of
    its slot, so a hit whose slot has no key in the mapping is left out
    without an error; and the list can then be shorter than [top_k] with
    more than [top_k] stored vectors at or above the threshold: on the
    index of three such vectors and no key, [search] for two returns
    none. *)
Theorem search_skips_slots_without_metadata :
  (forall (scalar : Type) (B : Backend scalar) (w w' : world scalar)
          (q : list scalar) (top_k : Z) (threshold : scalar)
          (results : list (search_result scalar)),
     search q top_k threshold w = (Ok results, w') ->
     forall r, r ∈ results ->
       metadata (self w) !! str (result_index r) = Some (result_entry r)) /\
  (ntotal (index (self unlabelled)) = 3 /\
   metadata (self unlabelled) = ∅ /\
   search unit_x 2 0.5%float unlabelled = (Ok [], unlabelled) /\
   List.filter
     (fun v => score_ge (inner_product (normalize_L2 unit_x) v) 0.5%float)
     (xb (index (self unlabelled)))
   = [unit_x; unit_x; unit_x]).
Proof.
  split.
  - intros scalar B w w' q top_k threshold results.
    apply search_only_with_metadata.
  - vm_compute. repeat split.
Qed.

End scenario_facts.

(** ** More on the vector index service: persistence and composition *)
Module FAISSService_more_facts.
Import faiss FAISSService FAISSService_facts FAISSService_more.

Section MoreFacts.
Context {scalar : Type} `{!Backend scalar}.

(** What [add_vectors_batch] does, in one piece. *)
Lemma add_vectors_batch_run (w : world scalar)
    (items : list (batch_item scalar)) :
  add_vectors_batch items w =
  match fold_left (batch_turn (ntotal (index (self w)))) items (Ok ([], ∅)) with
  | Raise e => (Raise (RuntimeError "Could not add vectors to index" e), w)
  | Ok acc =>
      match vstack (fst acc) with
      | Raise e => (Raise (RuntimeError "Could not add vectors to index" e), w)
      | Ok rows =>
          if Nat.eqb (shape1 (map normalize_L2 rows)) (d (index (self w)))
          then
            let i := {| d := d (index (self w));
                        xb := xb (index (self w)) ++ map normalize_L2 rows |} in
            let md := snd acc ∪ metadata (self w) in
            (Ok tt, {| self := {| index := i; metadata := md;
                                  dimension := dimension (self w) |};
                       fs := {| index_file := Stored i;
                                metadata_file := Stored md |} |})
          else (Raise (RuntimeError "Could not add vectors to index"
                         AssertionError), w)
      end
  end.
Proof.
  run_service. destruct (fold_left _ items _) as [acc|e]; [|done].
  destruct (vstack (fst acc)) as [rows|e]; [|done]. simpl.
  unfold add. by destruct (Nat.eqb _ _).
Qed.

Lemma batch_fold_ok_iff (n : nat) (items : list (batch_item scalar)) embs mb :
  (exists acc, fold_left (batch_turn n) items (Ok (embs, mb)) = Ok acc) <->
  Forall (fun it => is_Some (bi_resume_id it)) items.
Proof.
  revert embs mb. induction items as [|it items IH]; intros embs mb; simpl.
  - split; [constructor|by eexists].
  - destruct (bi_resume_id it) as [rid|] eqn:Hrid.
    + rewrite IH. split.
      * intros H. constructor; [by rewrite Hrid|done].
      * by intros [_ H]%Forall_cons.
    + rewrite batch_turn_raise. split.
      * by intros [acc [=]].
      * intros [Hs _]%Forall_cons. rewrite Hrid in Hs. by destruct Hs.
Qed.

Lemma vstack_ok_iff (rows : list (list scalar)) :
  (exists out, vstack rows = Ok out) <->
  rows <> [] /\ Forall (fun r => length r = shape1 rows) rows.
Proof.
  split.
  - intros [out H]. by apply vstack_ok in H as (_ & ? & ?).
  - intros [Hne Hall]. destruct rows as [|r rs]; [done|]. simpl in *.
    apply Forall_cons in Hall as [_ Hall].
    assert (E : forallb (fun r' => Nat.eqb (length r') (length r)) rs = true).
    { apply forallb_forall. intros r' Hr'. apply Nat.eqb_eq.
      rewrite Forall_forall in Hall. apply Hall. by apply list_elem_of_In. }
    rewrite E. by eexists.
Qed.

(** The batches that go through. *)
Lemma batch_ok_conditions (w : world scalar)
    (items : list (batch_item scalar)) :
  fst (add_vectors_batch items w) = Ok tt <->
  items <> [] /\
  Forall (fun it => is_Some (bi_resume_id it) /\
                    length (bi_embedding it) = d (index (self w))) items.
Proof.
  rewrite add_vectors_batch_run.
  destruct (fold_left _ items _) as [acc|e] eqn:Hfold.
  - pose proof (batch_fold_rows _ _ _ _ _ Hfold) as Hrows. simpl in Hrows.
    assert (Hids : Forall (fun it => is_Some (bi_resume_id it)) items).
    { apply (batch_fold_ok_iff (ntotal (index (self w))) items [] ∅).
      by eexists. }
    destruct (vstack (fst acc)) as [rows|e] eqn:Hstack.
    + apply vstack_ok in Hstack as (-> & Hne & Hall).
      assert (Hshape : shape1 (map normalize_L2 (fst acc)) = shape1 (fst acc)).
      { destruct (fst acc) as [|r rs]; [done|]. simpl.
        apply normalize_L2_length. }
      rewrite Hshape.
      destruct (Nat.eqb _ _) eqn:Hd; simpl.
       * apply Nat.eqb_eq in Hd. split; [intros _|done]. split.
         -- intros ->. by rewrite Hrows in Hne.
         -- apply Forall_forall. intros it Hit. split.
            ++ rewrite Forall_forall in Hids. by apply Hids.
            ++ rewrite <- Hd. rewrite Forall_forall in Hall. apply Hall.
               rewrite Hrows. apply list_elem_of_fmap. by exists it.
       * apply Nat.eqb_neq in Hd. split; [done|]. intros [Hne' Hgood].
         exfalso. apply Hd. rewrite Hrows.
         destruct items as [|it items]; [done|]. simpl.
         by apply Forall_cons in Hgood as [[_ ?] _].
    + simpl. split; [done|]. intros [Hne Hgood]. exfalso.
      assert (Hv : exists out, vstack (fst acc) = Ok out).
      { apply vstack_ok_iff. rewrite Hrows. split.
        - by destruct items.
        - apply Forall_forall. intros r Hr.
          apply list_elem_of_fmap in Hr as (it & -> & Hit).
          rewrite Forall_forall in Hgood.
          rewrite (proj2 (Hgood it Hit)).
          destruct items as [|it0 items]; [done|]. simpl.
          symmetry. apply (proj2 (Hgood it0 (list_elem_of_here _ _))). }
      destruct Hv as [out Hout]. by rewrite Hout in Hstack.
  - simpl. split; [done|]. intros [_ Hgood]. exfalso.
    assert (Hok : exists acc, fold_left (batch_turn (ntotal (index (self w))))
                                items (Ok ([], ∅)) = Ok acc).
    { apply batch_fold_ok_iff. eapply Forall_impl; [exact Hgood|].
      by intros it [? _]. }
    destruct Hok as [acc Hacc]. by rewrite Hacc in Hfold.
Qed.

(** X1. [add_vectors_batch] succeeds exactly on a non-empty list whose
    items all carry a resume identifier and an embedding of the index's
    dimension; in every other case the service object and the files stay
    as they were. *)
Theorem add_vectors_batch_succeeds_iff (w : world scalar)
    (items : list (batch_item scalar)) :
  (fst (add_vectors_batch items w) = Ok tt <->
   items <> [] /\
   Forall (fun it => is_Some (bi_resume_id it) /\
                     length (bi_embedding it) = d (index (self w))) items) /\
  (fst (add_vectors_batch items w) <> Ok tt ->
   snd (add_vectors_batch items w) = w).
Proof.
  split; [apply batch_ok_conditions|].
  destruct (add_vectors_batch items w) as [[[]|e] w'] eqn:Hrun; [done|].
  intros _. simpl. by apply add_vectors_batch_raise in Hrun.
Qed.

Lemma batch_fold_snoc (n : nat) (items : list (batch_item scalar))
    (it : batch_item scalar) init :
  fold_left (batch_turn n) (items ++ [it]) init
  = batch_turn n (fold_left (batch_turn n) items init) it.
Proof. by rewrite fold_left_app. Qed.

Lemma add_each_snoc (l : list (string * list scalar * resume_data))
    (t : string * list scalar * resume_data) (w : world scalar) :
  add_each (l ++ [t]) w
  = snd (add_vector (fst (fst t)) (snd (fst t)) (snd t) (add_each l w)).
Proof. unfold add_each. by rewrite fold_left_app. Qed.

(** X2. A batch that succeeds leaves exactly what [add_vector], called
    for its items one after the other, leaves: the same index, the same
    metadata and the same two files. *)
Theorem add_vectors_batch_as_appends (w w' : world scalar)
    (l : list (string * list scalar * resume_data)) :
  add_vectors_batch (map item_of l) w = (Ok tt, w') ->
  add_each l w = w'.
Proof.
  revert w'. induction l as [|t l IH] using rev_ind; intros w' Hrun.
  - rewrite add_vectors_batch_run in Hrun. simpl in Hrun. discriminate Hrun.
  - assert (Hgood : fst (add_vectors_batch (map item_of (l ++ [t])) w) = Ok tt)
      by (by rewrite Hrun).
    apply (proj1 (batch_ok_conditions _ _)) in Hgood as [_ Hgood].
    rewrite map_app, Forall_app in Hgood. destruct Hgood as [Hl Ht].
    apply Forall_singleton in Ht as [_ Ht]. simpl in Ht.
    rewrite add_each_snoc.
    rewrite add_vectors_batch_run in Hrun. rewrite map_app in Hrun.
    simpl in Hrun. rewrite batch_fold_snoc in Hrun.
    destruct (fold_left _ (map item_of l) _) as [[embs mb]|e] eqn:Hfold;
      [|done].
    pose proof (batch_fold_rows _ _ _ _ _ Hfold) as Hrows. simpl in Hrows.
    simpl in Hrun.
    destruct (vstack (embs ++ [snd (fst t)])) as [rows|e] eqn:Hstack; [|done].
    apply vstack_ok in Hstack as (-> & _ & _).
    destruct (Nat.eqb _ _); [|done]. injection Hrun as <-.
    destruct l as [|t0 l0].
    + simpl in *. injection Hfold as <- <-.
      rewrite add_vector_run, Ht, Nat.eqb_refl. simpl.
      unfold ntotal. simpl. rewrite length_app. simpl.
      replace (Z.of_nat (length (xb (index (self w))) + 1) - 1)%Z
        with (Z.of_nat (length (xb (index (self w)))) + 1 - 1)%Z by lia.
      by rewrite <- insert_union_l, (left_id ∅ (∪)).
    + assert (Hl0 : add_vectors_batch (map item_of (t0 :: l0)) w
                    = (Ok tt,
                       {| self := {| index :=
                                       {| d := d (index (self w));
                                          xb := xb (index (self w))
                                                ++ map normalize_L2 embs |};
                                     metadata := mb ∪ metadata (self w);
                                     dimension := dimension (self w) |};
                          fs := {| index_file :=
                                     Stored {| d := d (index (self w));
                                               xb := xb (index (self w))
                                                     ++ map normalize_L2 embs |};
                                   metadata_file :=
                                     Stored (mb ∪ metadata (self w)) |} |})).
      { rewrite add_vectors_batch_run, Hfold. simpl.
        assert (Hv : exists out, vstack embs = Ok out).
        { apply vstack_ok_iff. rewrite Hrows. split; [done|].
          apply Forall_forall. intros r Hr.
          apply list_elem_of_fmap in Hr as (it & -> & Hit).
          rewrite Forall_forall in Hl. rewrite (proj2 (Hl it Hit)).
          simpl. symmetry.
          apply (proj2 (Hl (item_of t0) (list_elem_of_here _ _))). }
        destruct Hv as [out Hout]. rewrite Hout.
        apply vstack_ok in Hout as (-> & _ & _).
        assert (Hshape : shape1 (map normalize_L2 embs)
                         = d (index (self w))).
        { rewrite Hrows. simpl. rewrite normalize_L2_length.
          pose proof Hl as Hl'. simpl in Hl'.
          by apply Forall_cons in Hl' as [[_ Ht0] _]. }
        by rewrite Hshape, Nat.eqb_refl. }
      rewrite (IH _ Hl0). rewrite add_vector_run. simpl.
      rewrite Ht, Nat.eqb_refl. simpl.
      unfold ntotal. simpl.
      rewrite map_app, !length_app, !length_map. simpl.
      rewrite <- !app_assoc.
      assert (Hlen : length embs = length (t0 :: l0))
        by (by rewrite Hrows, !length_map).
      replace (Z.of_nat (length (xb (index (self w))) + length embs + 1) - 1)%Z
        with (Z.of_nat (length (xb (index (self w))))
              + Z.of_nat (length embs + 1) - 1)%Z by lia.
      by rewrite insert_union_l.
Qed.

Lemma add_vector_ok_iff (w : world scalar) (rid : string) (v : list scalar)
    (data : resume_data) :
  fst (add_vector rid v data w) = Ok tt <-> length v = d (index (self w)).
Proof.
  rewrite add_vector_run. destruct (Nat.eqb _ _) eqn:E; simpl.
  - by apply Nat.eqb_eq in E.
  - apply Nat.eqb_neq in E. split; [done|]. intros. by destruct E.
Qed.

(** Each operation that changes the index returns only after both files
    hold the new state. *)
Lemma success_synced (w w' : world scalar) :
  (exists rid v data, add_vector rid v data w = (Ok tt, w')) \/
  (exists items, add_vectors_batch items w = (Ok tt, w')) \/
  rebuild_index w = (Ok tt, w') ->
  synced w'.
Proof.
  intros [(rid & v & data & Hrun)|[(items & Hrun)|Hrun]].
  - rewrite add_vector_run in Hrun. destruct (Nat.eqb _ _); [|done].
    by injection Hrun as <-.
  - rewrite add_vectors_batch_run in Hrun.
    destruct (fold_left _ items _) as [acc|e]; [|done].
    destruct (vstack _) as [rows|e]; [|done].
    destruct (Nat.eqb _ _); [|done]. by injection Hrun as <-.
  - rewrite rebuild_index_run in Hrun. by injection Hrun as <-.
Qed.

(** X3. Persist and load are a round trip.  After a successful
    [add_vector], [add_vectors_batch] or [rebuild_index], a service that
    initialises over the two files, whatever it held before, gets the same
    index and the same metadata, and leaves the files as they are. *)
Theorem restart_restores (w w' : world scalar) (other : service scalar) :
  (exists rid v data, add_vector rid v data w = (Ok tt, w')) \/
  (exists items, add_vectors_batch items w = (Ok tt, w')) \/
  rebuild_index w = (Ok tt, w') ->
  _initialize_index {| self := other; fs := fs w' |}
  = (Ok tt, {| self := {| index := index (self w');
                          metadata := metadata (self w');
                          dimension := dimension other |};
               fs := fs w' |}).
Proof.
  intros Hs. apply success_synced in Hs as [Hi Hm].
  destruct w' as [[i m dim] [fi fm]]. simpl in *. subst fi fm.
  by run_service.
Qed.

(** X4. [search] raises exactly when the index is not empty and the query
    has another length than the index's dimension or [top_k] is not
    positive; what it raises is then the library's assertion wrapped in a
    RuntimeError.  Whatever the outcome, the service object and the files
    are untouched. *)
Theorem search_raises_iff (w : world scalar) (q : list scalar) (top_k : Z)
    (threshold : scalar) :
  ((exists e, fst (search q top_k threshold w) = Raise e) <->
   ntotal (index (self w)) <> 0 /\
   (length q <> d (index (self w)) \/ (top_k <= 0)%Z)) /\
  (forall e, fst (search q top_k threshold w) = Raise e ->
             e = RuntimeError "Could not perform search" AssertionError) /\
  snd (search q top_k threshold w) = w.
Proof.
  split; [|split; [|apply search_state]].
  - rewrite search_run. unfold faiss.search.
    rewrite normalize_L2_length.
    destruct (Nat.eqb (ntotal _) 0) eqn:Hn; simpl.
    + apply Nat.eqb_eq in Hn. split; [by intros [e [=]]|]. by intros [? _].
    + apply Nat.eqb_neq in Hn.
      destruct (Nat.eqb (length q) _) eqn:Hd; simpl.
      * apply Nat.eqb_eq in Hd.
        destruct (0 <? Z.min _ _)%Z eqn:Hk; simpl.
        -- apply Z.ltb_lt in Hk. split; [by intros [e [=]]|].
           intros [_ [?|?]]; [done|lia].
        -- apply Z.ltb_ge in Hk. split; [intros _|by eexists].
           split; [done|]. right. lia.
      * apply Nat.eqb_neq in Hd. split; [intros _|by eexists].
        split; [done|]. by left.
  - intros e. rewrite search_run. unfold faiss.search.
    destruct (Nat.eqb (ntotal _) 0); [done|].
    destruct (Nat.eqb _ _); [|by intros [= <-]].
    destruct (0 <? _)%Z; [done|by intros [= <-]].
Qed.



(** X6. On a disk that takes the two writes, [rebuild_index] succeeds
    from every state and gives the index the configured dimension,
    whatever dimension it had: afterwards [add_vector] succeeds exactly
    for the vectors of the configured length.  Rebuilding a second time
    changes nothing. *)
Theorem rebuild_resets_dimension (w : world scalar) :
  fst (rebuild_index w) = Ok tt /\
  d (index (self (snd (rebuild_index w)))) = dimension (self w) /\
  (forall rid v data,
     fst (add_vector rid v data (snd (rebuild_index w))) = Ok tt <->
     length v = dimension (self w)) /\
  rebuild_index (snd (rebuild_index w)) = rebuild_index w.
Proof.
  rewrite rebuild_index_run. simpl. split; [done|]. split; [done|]. split.
  - intros rid v data. by rewrite add_vector_ok_iff.
  - by rewrite rebuild_index_run.
Qed.

(** X7. Loading does not compare dimensions.  When both files can be
    read, initialisation adopts the stored pair as it is, keeps the
    configured dimension beside it, and returns normally; [add_vector] then
    accepts exactly the vectors of the stored index's dimension, so a
    disagreement with the configured dimension shows only as the failure
    of later appends. *)
Theorem load_keeps_stored_dimension (other : service scalar)
    (f : disk scalar) (i : IndexFlatIP scalar) (m : gmap string entry) :
  index_file f = Stored i -> metadata_file f = Stored m ->
  _initialize_index {| self := other; fs := f |}
  = (Ok tt, {| self := {| index := i; metadata := m;
                          dimension := dimension other |};
               fs := f |}) /\
  forall rid v data,
    fst (add_vector rid v data
           (snd (_initialize_index {| self := other; fs := f |}))) = Ok tt <->
    length v = d i.
Proof.
  intros Hi Hm.
  assert (E : _initialize_index {| self := other; fs := f |}
              = (Ok tt, {| self := {| index := i; metadata := m;
                                      dimension := dimension other |};
                           fs := f |})).
  { destruct f as [fi fm]. simpl in *. subst fi fm. by run_service. }
  split; [exact E|]. intros rid v data. rewrite E. simpl.
  by rewrite add_vector_ok_iff.
Qed.

End MoreFacts.
End FAISSService_more_facts.

(** ** Text preparation for the embedding model *)
Module EmbeddingService_more_facts.
Import pystr EmbeddingService_more.

Lemma split_from_run (w cur s : list ascii) :
  nonspace w -> split_from cur (w ++ s) = split_from (rev w ++ cur) s.
Proof.
  revert cur. induction w as [|c w IH]; intros cur Hw; [done|].
  apply Forall_cons in Hw as [Hc Hw]. simpl. rewrite Hc, (IH _ Hw).
  by rewrite <- app_assoc.
Qed.

Lemma split_from_spaces (cur s : list ascii) :
  Forall (fun c => isspace c = true) s -> split_from cur s = flush cur.
Proof.
  revert cur. induction s as [|c s IH]; intros cur Hs; [done|].
  apply Forall_cons in Hs as [Hc Hs]. simpl. rewrite Hc.
  destruct cur; by rewrite (IH [] Hs).
Qed.

Lemma split_from_words (cur s : list ascii) :
  nonspace cur -> Forall is_word (split_from cur s).
Proof.
  revert cur. induction s as [|c s IH]; intros cur Hcur; simpl.
  - destruct cur as [|x cur]; [constructor|].
    constructor; [|constructor].
    split; [simpl; by destruct (rev cur)|]. by apply Forall_rev.
  - destruct (isspace c) eqn:Hc.
    + destruct cur as [|x cur]; [by apply IH|].
      constructor; [|by apply IH; constructor].
      split; [simpl; by destruct (rev cur)|]. by apply Forall_rev.
    + apply IH. by constructor.
Qed.

Lemma split_join (ws : list (list ascii)) :
  Forall is_word ws -> split (join [" "%char] ws) = ws.
Proof.
  unfold split. induction ws as [|w ws IH]; intros Hws; [done|].
  apply Forall_cons in Hws as [[Hne Hw] Hws].
  destruct ws as [|w' ws].
  - simpl. rewrite <- (app_nil_r w) at 1.
    rewrite split_from_run, app_nil_r by done. simpl.
    rewrite rev_involutive. destruct (rev w) eqn:E; [|done].
    apply (f_equal (@rev ascii)) in E. rewrite rev_involutive in E.
    by destruct Hne.
  - change (join [" "%char] (w :: w' :: ws))
      with (w ++ " "%char :: join [" "%char] (w' :: ws)).
    rewrite split_from_run, app_nil_r by done.
    change (split_from (rev w) (" "%char :: join [" "%char] (w' :: ws)))
      with (match rev w with
            | [] => split_from [] (join [" "%char] (w' :: ws))
            | _ => rev (rev w) :: split_from [] (join [" "%char] (w' :: ws))
            end).
    rewrite (IH Hws), rev_involutive. destruct (rev w) eqn:E; [|done].
    apply (f_equal (@rev ascii)) in E. rewrite rev_involutive in E.
    by destruct Hne.
Qed.

Lemma split_lstrip (s : list ascii) : split (lstrip s) = split s.
Proof.
  unfold split. induction s as [|c s IH]; simpl; [done|].
  destruct (isspace c) eqn:Hc; [done|]. simpl. by rewrite Hc.
Qed.

Lemma rstrip_nil (s : list ascii) :
  rstrip s = [] -> Forall (fun c => isspace c = true) s.
Proof.
  induction s as [|c s IH]; simpl; [constructor|].
  destruct (rstrip s); [|done].
  destruct (isspace c) eqn:Hc; [|done]. intros _. constructor; auto.
Qed.

Lemma split_from_rstrip (cur s : list ascii) :
  split_from cur (rstrip s) = split_from cur s.
Proof.
  revert cur. induction s as [|c s IH]; intros cur; [done|]. simpl.
  destruct (rstrip s) as [|x r] eqn:Hr.
  - pose proof (rstrip_nil _ Hr) as Hs.
    destruct (isspace c) eqn:Hc; simpl.
    + destruct cur; by rewrite (split_from_spaces [] s Hs).
    + by rewrite Hc, (split_from_spaces (c :: cur) s Hs).
  - simpl. destruct (isspace c).
    + destruct cur; by rewrite <- IH.
    + by rewrite <- IH.
Qed.

Lemma split_strip (s : list ascii) : split (strip s) = split s.
Proof.
  unfold strip, split. rewrite split_from_rstrip. apply split_lstrip.
Qed.

Lemma split_collapse (s : list ascii) : split (collapse s) = split s.
Proof.
  unfold collapse. rewrite split_strip. apply split_join.
  apply (split_from_words [] s). constructor.
Qed.

Lemma collapse_collapse (s : list ascii) : collapse (collapse s) = collapse s.
Proof.
  unfold collapse at 1. rewrite split_strip, split_collapse.
  unfold collapse. by rewrite split_strip.
Qed.

Lemma blanks_single_run (b : bool) (w s : list ascii) :
  is_word w -> blanks_single b (w ++ s) = blanks_single false s.
Proof.
  intros [Hne Hw]. revert b. induction Hw as [|c w Hc Hw IH]; [done|].
  intros b. simpl. rewrite Hc. destruct w as [|c' w]; [done|].
  by apply IH.
Qed.

Lemma blanks_single_join (ws : list (list ascii)) :
  Forall is_word ws -> blanks_single true (join [" "%char] ws) = true.
Proof.
  induction ws as [|w ws IH]; intros Hws; [done|].
  apply Forall_cons in Hws as [Hw Hws]. destruct ws as [|w' ws].
  - simpl. rewrite <- (app_nil_r w). by rewrite blanks_single_run.
  - change (join [" "%char] (w :: w' :: ws))
      with (w ++ " "%char :: join [" "%char] (w' :: ws)).
    rewrite blanks_single_run by done.
    change (blanks_single false (" "%char :: join [" "%char] (w' :: ws)))
      with (blanks_single true (join [" "%char] (w' :: ws))).
    by apply IH.
Qed.

Lemma blanks_single_firstn (b : bool) (n : nat) (s : list ascii) :
  blanks_single b s = true -> blanks_single b (firstn n s) = true.
Proof.
  revert b n. induction s as [|c s IH]; intros b [|n]; simpl; try done.
  destruct (isspace c).
  - intros [[-> ->]%andb_prop Hs]%andb_prop. simpl. by apply IH.
  - apply IH.
Qed.

Lemma join_nil (ws : list (list ascii)) :
  Forall is_word ws -> join [" "%char] ws = [] -> ws = [].
Proof.
  destruct ws as [|w ws]; [done|]. intros [[Hne _] _]%Forall_cons.
  destruct ws; simpl; [done|]. by destruct w.
Qed.

Lemma split_from_started (cur s : list ascii) :
  cur <> [] -> split_from cur s <> [].
Proof.
  revert cur. induction s as [|c s IH]; intros cur Hcur; simpl.
  - by destruct cur.
  - destruct (isspace c); [by destruct cur|by apply IH].
Qed.

Lemma split_nil (s : list ascii) :
  split s = [] <-> Forall (fun c => isspace c = true) s.
Proof.
  split.
  - unfold split. induction s as [|c s IH]; simpl; [constructor|].
    destruct (isspace c) eqn:Hc.
    + intros H. constructor; auto.
    + intros H. by apply split_from_started in H.
  - intros H. unfold split. by rewrite split_from_spaces.
Qed.

Lemma preprocess_chars (text : string) :
  list_ascii_of_string (_preprocess_text text)
  = let t := collapse (list_ascii_of_string text) in
    if Nat.ltb (MAX_SEQUENCE_LENGTH * 4) (length t)
    then firstn (MAX_SEQUENCE_LENGTH * 4) t else t.
Proof.
  destruct text as [|c text]; [done|].
  unfold _preprocess_text. by rewrite list_ascii_of_string_of_list_ascii.
Qed.

(** X8. The text handed to the model has at most 4 * 512 characters; its
    white space is single blanks, never in front and never two in a row;
    and it is empty exactly when the input has nothing but white space. *)
Theorem preprocess_text_shape (text : string) :
  length (list_ascii_of_string (_preprocess_text text)) <= 2048 /\
  blanks_single true (list_ascii_of_string (_preprocess_text text)) = true /\
  (_preprocess_text text = "" <->
   Forall (fun c => isspace c = true) (list_ascii_of_string text)).
Proof.
  assert (Hwords : Forall is_word (split (strip (list_ascii_of_string text))))
    by (apply (split_from_words []); constructor).
  assert (Hblank : blanks_single true (collapse (list_ascii_of_string text))
                   = true) by (by apply blanks_single_join).
  split; [|split].
  - rewrite preprocess_chars. cbv zeta.
    change (MAX_SEQUENCE_LENGTH * 4) with 2048.
    destruct (Nat.ltb_spec 2048 (length (collapse (list_ascii_of_string text)))).
    + rewrite length_firstn. lia.
    + lia.
  - rewrite preprocess_chars. cbv zeta.
    destruct (Nat.ltb _ _); [by apply blanks_single_firstn|done].
  - rewrite <- split_nil, <- split_strip.
    assert (E : _preprocess_text text = ""
                <-> list_ascii_of_string (_preprocess_text text) = []).
    { split; [by intros ->|]. intros H.
      rewrite <- (string_of_list_ascii_of_string (_preprocess_text text)).
      by rewrite H. }
    rewrite E, preprocess_chars. cbv zeta.
    change (MAX_SEQUENCE_LENGTH * 4) with 2048.
    destruct (Nat.ltb_spec 2048 (length (collapse (list_ascii_of_string text))))
      as [Hlong|Hshort].
    + split.
      * intros H. apply (f_equal (@length ascii)) in H.
        rewrite length_firstn in H. change (@length ascii []) with 0 in H.
        lia.
      * intros H. unfold collapse in Hlong. rewrite H in Hlong.
        simpl in Hlong. lia.
    + unfold collapse. split; [by apply join_nil|by intros ->].
Qed.

(** X9. When the collapsed text fits into the 4 * 512 characters,
    preparation keeps the words of the text and their order, and preparing
    a prepared text changes nothing. *)
Theorem preprocess_text_keeps_words (text : string) :
  length (collapse (list_ascii_of_string text)) <= 2048 ->
  split (list_ascii_of_string (_preprocess_text text))
  = split (list_ascii_of_string text) /\
  _preprocess_text (_preprocess_text text) = _preprocess_text text.
Proof.
  intros Hfit.
  assert (Hchars : list_ascii_of_string (_preprocess_text text)
                   = collapse (list_ascii_of_string text)).
  { rewrite preprocess_chars. cbv zeta.
    change (MAX_SEQUENCE_LENGTH * 4) with 2048.
    destruct (Nat.ltb_spec 2048 (length (collapse (list_ascii_of_string text))));
      [lia|done]. }
  split; [by rewrite Hchars, split_collapse|].
  rewrite <- (string_of_list_ascii_of_string
                (_preprocess_text (_preprocess_text text))).
  rewrite <- (string_of_list_ascii_of_string (_preprocess_text text)) at 2.
  f_equal. rewrite preprocess_chars. cbv zeta.
  rewrite Hchars, collapse_collapse.
  change (MAX_SEQUENCE_LENGTH * 4) with 2048.
  destruct (Nat.ltb_spec 2048 (length (collapse (list_ascii_of_string text))));
    [lia|done].
Qed.

End EmbeddingService_more_facts.

(** ** More on cosine similarity, and the choice of the model *)
Module EmbeddingService_similarity_facts.
Import EmbeddingService EmbeddingService_facts EmbeddingService_more.
Local Open Scope R_scope.

Lemma dot_comm (a b : list R) : dot a b = dot b a.
Proof.
  revert b. induction a as [|x a IH]; intros [|y b]; simpl; try done.
  rewrite IH. lra.
Qed.



(** X10. The similarity does not depend on the order of its two
    arguments, whatever their lengths. *)
Theorem compute_similarity_symmetric (a b : list R) :
  compute_similarity a b = compute_similarity b a.
Proof.
  unfold compute_similarity, similarity_body, np_dot.
  rewrite (orb_comm (is_zero (norm a))).
  destruct (is_zero (norm b) || is_zero (norm a)); [done|].
  rewrite (Nat.eqb_sym (length a)).
  destruct (Nat.eqb _ _); [|done].
  by rewrite dot_comm, (Rmult_comm (norm a)).
Qed.










Section ModelChoice.
Variable load : string -> result nat.

Lemma try_models_some (last_name : string) (options : list string)
    (name : string) (dim : nat) :
  try_models load last_name options = Ok (Some (name, dim)) ->
  exists before after,
    options = before ++ name :: after /\ load name = Ok dim /\
    Forall (fun o => exists e, load o = Raise e) before.
Proof.
  induction options as [|o options IH]; simpl; [done|].
  destruct (load o) as [n|e] eqn:Ho.
  - intros [= <- <-]. exists [], options. repeat split; [done|constructor].
  - destruct (String.eqb o last_name); [done|]. intros H.
    apply IH in H as (before & after & -> & Hload & Hbefore).
    exists (o :: before), after. repeat split; [done|].
    constructor; [by exists e|done].
Qed.

(** X13. [_initialize_model] never ends without a model or an error.  A
    model it settles on loads, and every option before it in the list
    failed.  When the configured name is not the last fallback, it raises
    exactly when all four options fail; but when the configured name is the
    last fallback and fails to load, it raises at once, whatever the other
    fallbacks would do. *)
Theorem initialize_model_order (configured : string) :
  _initialize_model load configured <> Ok None /\
  (forall name dim,
     _initialize_model load configured = Ok (Some (name, dim)) ->
     exists before after,
       configured :: fallbacks = before ++ name :: after /\
       load name = Ok dim /\
       Forall (fun o => exists e, load o = Raise e) before) /\
  (configured <> "sentence-transformers/paraphrase-MiniLM-L6-v2" ->
   ((exists e, _initialize_model load configured = Raise e) <->
    Forall (fun o => exists e, load o = Raise e) (configured :: fallbacks))) /\
  (configured = "sentence-transformers/paraphrase-MiniLM-L6-v2" ->
   forall e, load configured = Raise e ->
     _initialize_model load configured
     = Raise (RuntimeError
                "Could not initialize any embedding model. Last error" e)).
Proof.
  unfold _initialize_model. cbv zeta.
  change (List.last (configured :: fallbacks) "")
    with "sentence-transformers/paraphrase-MiniLM-L6-v2".
  split; [|split; [|split]].
  - unfold fallbacks. simpl.
    destruct (load configured); [done|].
    destruct (String.eqb configured _); [done|].
    destruct (load "sentence-transformers/all-MiniLM-L6-v2"); [done|]. simpl.
    destruct (load "sentence-transformers/all-mpnet-base-v2"); [done|]. simpl.
    by destruct (load "sentence-transformers/paraphrase-MiniLM-L6-v2").
  - intros name dim. apply try_models_some.
  - intros Hne. apply String.eqb_neq in Hne. unfold fallbacks. simpl.
    rewrite Hne.
    destruct (load configured) as [n0|e0] eqn:H0.
    { split; [by intros [e [=]]|].
      intros [[e He] _]%Forall_cons. rewrite H0 in He. discriminate He. }
    destruct (load "sentence-transformers/all-MiniLM-L6-v2") as [n1|e1] eqn:H1.
    { split; [by intros [e [=]]|].
      intros H. apply Forall_cons_1 in H as [_ H].
      apply Forall_cons_1 in H as [[e He] _]. rewrite H1 in He.
      discriminate He. }
    simpl.
    destruct (load "sentence-transformers/all-mpnet-base-v2") as [n2|e2] eqn:H2.
    { split; [by intros [e [=]]|].
      intros H. do 2 (apply Forall_cons_1 in H as [_ H]).
      apply Forall_cons_1 in H as [[e He] _]. rewrite H2 in He.
      discriminate He. }
    simpl.
    destruct (load "sentence-transformers/paraphrase-MiniLM-L6-v2")
      as [n3|e3] eqn:H3.
    { split; [by intros [e [=]]|].
      intros H. do 3 (apply Forall_cons_1 in H as [_ H]).
      apply Forall_cons_1 in H as [[e He] _]. rewrite H3 in He.
      discriminate He. }
    split; [intros _|by eexists].
    repeat (constructor; [by eexists|]). constructor.
  - intros -> e He. simpl. by rewrite He.
Qed.
End ModelChoice.

End EmbeddingService_similarity_facts.

(** ** The engine finds the leftmost match; sections *)
Module ResumeParser_more_facts.
Import re re_sem re_facts ResumeParser pystr ResumeParser_more.

Lemma rep_complete {R} (p : ascii -> bool) (taken : list ascii) :
  forall lo hi s (k : list ascii -> option R),
    lo <= length taken -> within hi (length taken) ->
    forallb p taken = true -> k s <> None ->
    rep p lo hi (taken ++ s) k <> None.
Proof.
  induction taken as [|x t IH]; intros lo hi s k Hlo Hhi Hall Hk.
  - simpl in Hlo. assert (lo = 0) as -> by lia. simpl.
    destruct s as [|y s]; simpl; [done|].
    destruct (p y && _); [|done].
    by destruct (rep p 0 (option_map pred hi) s k).
  - simpl in Hall. apply andb_prop in Hall as [Hx Hall]. simpl.
    rewrite Hx. simpl.
    assert (Hhi0 : match hi with Some 0 => true | _ => false end = false).
    { destruct hi as [[|h]|]; simpl in *; [lia|done..]. }
    rewrite Hhi0. simpl.
    assert (Hne : rep p (pred lo) (option_map pred hi) (t ++ s) k <> None).
    { apply IH; try done; [simpl in Hlo; lia|].
      destruct hi as [h|]; simpl in *; [lia|done]. }
    by destruct (rep p (pred lo) (option_map pred hi) (t ++ s) k).
Qed.

(** Where the pattern has a match the engine does not fail. *)
Lemma run_complete {R} icase r s c s' c' :
  matches icase r s c s' c' ->
  forall k : list ascii -> caps -> option R,
    k s' c' <> None -> run icase r s c k <> None.
Proof.
  induction 1 as [s c|a x s c H|p x s c H
                 |r1 r2 s c s1 c1 s2 c2 _ IH1 _ IH2
                 |r s c s' c' _ IH|r s c|p lo hi t s c Hlo Hhi Hall
                 |j r s c s' c' M IH]; intros k Hk; simpl.
  - done.
  - by rewrite H.
  - by rewrite H.
  - apply IH1. by apply IH2.
  - specialize (IH k Hk). by destruct (run icase r s c k).
  - by destruct (run icase r s c k).
  - by apply rep_complete.
  - by apply IH.
Qed.

Lemma match_at_complete icase r s s' c' :
  matches icase r s no_caps s' c' -> match_at icase r s <> None.
Proof. intros M. unfold match_at. by apply (run_complete _ _ _ _ _ _ M). Qed.

Lemma consumed_self (s : list ascii) : consumed s s = [].
Proof. unfold consumed. by rewrite Nat.sub_diag. Qed.

Lemma consumed_cons (x : ascii) (s : list ascii) : consumed (x :: s) s = [x].
Proof. apply (consumed_app [x] s). Qed.

Lemma consumed_trans (t1 t2 s : list ascii) :
  consumed (t1 ++ t2 ++ s) s = consumed (t1 ++ t2 ++ s) (t2 ++ s)
                               ++ consumed (t2 ++ s) s.
Proof. by rewrite (app_assoc t1 t2 s), !consumed_app, <- app_assoc, consumed_app. Qed.

(** A match does not look beyond what it takes: it is a match before any
    other rest of the text. *)
Lemma matches_frame icase r s c s' c' :
  matches icase r s c s' c' ->
  forall s2, matches icase r (consumed s s' ++ s2) c s2 c'.
Proof.
  induction 1 as [s c|a x s c H|p x s c H
                 |r1 r2 s c s1 c1 s2 c2 M1 IH1 M2 IH2
                 |r s c s' c' _ IH|r s c|p lo hi t s c Hlo Hhi Hall
                 |j r s c s' c' M IH]; intros rest.
  - rewrite consumed_self. constructor.
  - rewrite consumed_cons. by constructor.
  - rewrite consumed_cons. by constructor.
  - destruct (matches_suffix _ _ _ _ _ _ M1) as [t1 ->].
    destruct (matches_suffix _ _ _ _ _ _ M2) as [t2 ->].
    rewrite consumed_trans, <- app_assoc.
    econstructor; [|apply IH2].
    specialize (IH1 (consumed (t2 ++ s2) s2 ++ rest)).
    by rewrite !consumed_app in *.
  - apply M_Opt_some, IH.
  - rewrite consumed_self. apply M_Opt_none.
  - rewrite consumed_app. by constructor.
  - destruct (matches_suffix _ _ _ _ _ _ M) as [t ->].
    specialize (IH rest). rewrite consumed_app in *.
    pose proof (M_Group icase j r _ _ _ _ IH) as MG.
    by rewrite consumed_app in MG.
Qed.

Lemma matches_min_len icase r s c s' c' :
  matches icase r s c s' c' -> min_len r <= length (consumed s s').
Proof.
  induction 1 as [s c|a x s c H|p x s c H
                 |r1 r2 s c s1 c1 s2 c2 M1 IH1 M2 IH2
                 |r s c s' c' _ IH|r s c|p lo hi t s c Hlo Hhi Hall
                 |j r s c s' c' M IH]; simpl; try lia.
  - by rewrite consumed_cons.
  - by rewrite consumed_cons.
  - destruct (matches_suffix _ _ _ _ _ _ M1) as [t1 ->].
    destruct (matches_suffix _ _ _ _ _ _ M2) as [t2 ->].
    rewrite consumed_trans, length_app. lia.
  - by rewrite consumed_app.
Qed.

Lemma matches_max_len icase r s c s' c' n :
  matches icase r s c s' c' -> max_len r = Some n ->
  length (consumed s s') <= n.
Proof.
  intros M. revert n.
  induction M as [s c|a x s c H|p x s c H
                 |r1 r2 s c s1 c1 s2 c2 M1 IH1 M2 IH2
                 |r s c s' c' _ IH|r s c|p lo hi t s c Hlo Hhi Hall
                 |j r s c s' c' M IH]; simpl; intros n Hn.
  - rewrite consumed_self. simpl. lia.
  - rewrite consumed_cons. injection Hn as <-. done.
  - rewrite consumed_cons. injection Hn as <-. done.
  - destruct (max_len r1) as [a|]; [|done].
    destruct (max_len r2) as [b|]; [|done]. injection Hn as <-.
    destruct (matches_suffix _ _ _ _ _ _ M1) as [t1 ->].
    destruct (matches_suffix _ _ _ _ _ _ M2) as [t2 ->].
    rewrite consumed_trans, length_app.
    specialize (IH1 a eq_refl). specialize (IH2 b eq_refl). lia.
  - by apply IH.
  - rewrite consumed_self. simpl. lia.
  - rewrite consumed_app. subst hi. exact Hhi.
  - by apply IH.
Qed.

(** What [search_span] returns is a match, at the place it says. *)
Lemma search_span_sound icase r s pos start stop :
  search_span icase r s pos = Some (start, stop) ->
  exists before m rest c,
    s = before ++ m ++ rest /\ start = pos + length before /\
    stop = start + length m /\ matches icase r (m ++ rest) no_caps rest c.
Proof.
  revert pos. induction s as [|x s IH]; intros pos; simpl.
  - destruct (match_at icase r []) as [[rest c]|] eqn:E; [|done].
    intros [= <- <-]. apply match_at_sound in E.
    destruct (matches_suffix _ _ _ _ _ _ E) as [t Ht].
    symmetry in Ht. apply app_eq_nil in Ht as [-> ->].
    exists [], [], [], c. simpl. repeat split; [lia..|done].
  - destruct (match_at icase r (x :: s)) as [[rest c]|] eqn:E.
    + intros [= <- <-]. apply match_at_sound in E.
      destruct (matches_suffix _ _ _ _ _ _ E) as [t Ht].
      pose proof (f_equal (@length ascii) Ht) as Hlen.
      simpl in Hlen. rewrite length_app in Hlen.
      exists [], t, rest, c. rewrite <- Ht. simpl.
      repeat split; [lia|lia|done].
    + intros H. apply IH in H as (before & m & rest & c & -> & -> & -> & M).
      exists (x :: before), m, rest, c. simpl. repeat split; [lia|done].
Qed.

(** [search_span] does not pass over a match. *)
Lemma search_span_complete icase r before tail rest c pos :
  matches icase r tail no_caps rest c ->
  exists start stop,
    search_span icase r (before ++ tail) pos = Some (start, stop) /\
    start <= pos + length before.
Proof.
  intros M. revert pos. induction before as [|x before IH]; intros pos.
  - simpl. pose proof (match_at_complete _ _ _ _ _ M) as Hne.
    destruct tail as [|y tail]; simpl;
      destruct (match_at icase r _) as [[rest' c']|]; try done;
      eexists _, _; (split; [done|lia]).
  - simpl. destruct (match_at icase r (x :: before ++ tail)) as [[rest' c']|].
    + eexists _, _. split; [done|lia].
    + destruct (IH (S pos)) as (start & stop & -> & Hle).
      exists start, stop. split; [done|lia].
Qed.

Lemma lstrip_suffix (s : list ascii) : exists pre, s = pre ++ lstrip s.
Proof.
  induction s as [|c s [pre IH]]; [by exists []|]. simpl.
  destruct (isspace c); [|by exists []].
  exists (c :: pre). simpl. by rewrite <- IH.
Qed.

Lemma rstrip_prefix (s : list ascii) : exists post, s = rstrip s ++ post.
Proof.
  induction s as [|c s [post IH]]; [by exists []|]. simpl.
  destruct (rstrip s) as [|x r] eqn:Hr.
  - destruct (isspace c).
    + by exists (c :: s).
    + exists post. simpl. by rewrite IH at 1.
  - exists post. simpl. by rewrite IH at 1.
Qed.

Lemma strip_inside (s : list ascii) : exists a b, s = a ++ strip s ++ b.
Proof.
  destruct (lstrip_suffix s) as [a Ha].
  destruct (rstrip_prefix (lstrip s)) as [b Hb].
  exists a, b. unfold strip. by rewrite <- Hb.
Qed.

Lemma lstrip_clean (s : list ascii) : starts_clean (lstrip s).
Proof.
  induction s as [|c s IH]; simpl; [done|].
  destruct (isspace c) eqn:Hc; [done|]. simpl. done.
Qed.

Lemma rstrip_clean (s : list ascii) : starts_clean s -> starts_clean (rstrip s).
Proof.
  destruct s as [|c s]; simpl; [done|]. intros Hc.
  destruct (rstrip s); [by rewrite Hc|done].
Qed.

Lemma firstn_clean (n : nat) (s : list ascii) :
  starts_clean s -> starts_clean (firstn n s).
Proof. by destruct n, s. Qed.

Lemma firstn_inside (n : nat) (s : list ascii) :
  exists b, s = firstn n s ++ b.
Proof. exists (skipn n s). by rewrite firstn_skipn. Qed.

Lemma min_of_le (x y : nat) (l : list nat) : y ∈ x :: l -> min_of x l <= y.
Proof.
  unfold min_of. revert x y. induction l as [|z l IH]; intros x y Hy; simpl.
  - apply list_elem_of_singleton in Hy. lia.
  - apply elem_of_cons in Hy as [Hy|Hy].
    + pose proof (IH x x ltac:(left)). lia.
    + apply elem_of_cons in Hy as [Hy|Hy]; [lia|].
      pose proof (IH x y ltac:(by right)). lia.
Qed.

Lemma min_of_ge (lb x : nat) (l : list nat) :
  Forall (fun y => lb <= y) (x :: l) -> lb <= min_of x l.
Proof.
  unfold min_of. intros [Hx Hl]%Forall_cons.
  induction Hl as [|z l Hz _ IH]; simpl; lia.
Qed.

Lemma headers_take_space :
  Forall (fun p => 1 <= min_len p) all_patterns.
Proof.
  apply Forall_forall. intros p Hp.
  assert (H : forallb (fun p => Nat.leb 1 (min_len p)) all_patterns = true)
    by (vm_compute; reflexivity).
  rewrite forallb_forall in H. apply Nat.leb_le, H. by apply list_elem_of_In.
Qed.

(** A match of a header takes at least one character. *)
Lemma header_match_nonempty (p : regex) (m rest : list ascii) (c : caps) :
  p ∈ all_patterns -> matches true p (m ++ rest) no_caps rest c ->
  1 <= length m.
Proof.
  intros Hp M. apply matches_min_len in M. rewrite consumed_app in M.
  pose proof headers_take_space as H. rewrite Forall_forall in H.
  specialize (H p Hp). lia.
Qed.

Lemma next_positions_from (text : list ascii) (start_pos : nat) (y : nat) :
  y ∈ omap (fun pattern =>
              match search_span true pattern (skipn start_pos text) 0 with
              | Some (start, _) => Some (start_pos + start)
              | None => None
              end) all_patterns ->
  start_pos <= y.
Proof.
  intros (p & _ & Hy)%list_elem_of_omap.
  destruct (search_span _ _ _ _) as [[st en]|]; [|done].
  injection Hy as <-. lia.
Qed.

(** In the text cut for a section no header starts. *)
Lemma section_text_no_header (text : list ascii) (start_pos : nat) (p : regex) :
  1 <= start_pos -> p ∈ all_patterns ->
  search_span true p (section_text text start_pos) 0 = None.
Proof.
  intros Hstart Hp.
  destruct (search_span true p (section_text text start_pos) 0)
    as [[st en]|] eqn:Hfound; [exfalso|done].
  apply search_span_sound in Hfound
    as (before & m & rest & c & Hv & _ & _ & M).
  pose proof (header_match_nonempty _ _ _ _ Hp M) as Hm.
  pose proof (matches_frame _ _ _ _ _ _ M) as Hframe.
  rewrite consumed_app in Hframe.
  set (T := skipn start_pos text).
  set (f := fun pattern =>
              match search_span true pattern T 0 with
              | Some (start, _) => Some (start_pos + start)
              | None => None
              end).
  assert (Hreach : forall a tail,
            T = a ++ before ++ m ++ tail ->
            exists st', f p = Some (start_pos + st') /\
                        st' <= length a + length before).
  { intros a tail HT.
    destruct (search_span_complete true p (a ++ before) (m ++ tail) tail c 0
                (Hframe tail)) as (st' & en' & Hs & Hle).
    exists st'. unfold f. rewrite HT.
    rewrite <- app_assoc in Hs. rewrite Hs. split; [done|].
    rewrite length_app in Hle. lia. }
  unfold section_text, _find_next_section in Hv. fold T in Hv. fold f in Hv.
  destruct (omap f all_patterns) as [|x l] eqn:Hnext.
  - destruct (strip_inside T) as (a & b & HT).
    destruct (firstn_inside 1000 (strip T)) as [b' Hb'].
    rewrite Hb', Hv in HT. 
    destruct (Hreach a (rest ++ b' ++ b)) as (st' & Hf & _).
    { rewrite HT. by rewrite <- !app_assoc. }
    assert (Hin : start_pos + st' ∈ omap f all_patterns).
    { apply list_elem_of_omap. by exists p. }
    rewrite Hnext in Hin. by apply elem_of_nil in Hin.
  - assert (Hlb : start_pos <= min_of x l).
    { apply min_of_ge. rewrite <- Hnext. apply Forall_forall.
      intros y Hy. by apply (next_positions_from text). }
    destruct (min_of x l) as [|n] eqn:Hmin; [lia|].
    unfold slice in Hv. fold T in Hv.
    destruct (strip_inside (firstn (S n - start_pos) T)) as (a & b & Hslice).
    destruct (firstn_inside 1000 (strip (firstn (S n - start_pos) T)))
      as [b' Hb'].
    rewrite Hb', Hv in Hslice.
    destruct (Hreach a (rest ++ b' ++ b ++ skipn (S n - start_pos) T))
      as (st' & Hf & Hle).
    { rewrite <- (firstn_skipn (S n - start_pos) T) at 1.
      rewrite Hslice. by rewrite <- !app_assoc. }
    assert (Hin : start_pos + st' ∈ x :: l).
    { rewrite <- Hnext. apply list_elem_of_omap. by exists p. }
    apply min_of_le in Hin. rewrite Hmin in Hin.
    apply (f_equal (@length ascii)) in Hslice.
    rewrite length_firstn, !length_app in Hslice. lia.
Qed.

Lemma first_header_sound (text : list ascii) (patterns : list regex)
    (stop : nat) :
  first_header text patterns = Some stop ->
  exists p start, p ∈ patterns /\
                  search_span true p text 0 = Some (start, stop).
Proof.
  induction patterns as [|p patterns IH]; simpl; [done|].
  destruct (search_span true p text 0) as [[start stop']|] eqn:Hs.
  - intros [= <-]. exists p, start. split; [left|done].
  - intros H. apply IH in H as (q & start & Hq & Hq').
    exists q, start. split; [by right|done].
Qed.

Lemma kind_patterns (kind : string * list regex) (p : regex) :
  kind ∈ section_patterns -> p ∈ snd kind -> p ∈ all_patterns.
Proof.
  intros Hk Hp. unfold all_patterns. apply list_elem_of_In, in_concat.
  exists (snd kind). split; [|by apply list_elem_of_In].
  apply in_map, list_elem_of_In, Hk.
Qed.

(** The header of a section ends after the first character of the text. *)
Lemma first_header_positive (text : list ascii) (kind : string * list regex)
    (stop : nat) :
  kind ∈ section_patterns -> first_header text (snd kind) = Some stop ->
  1 <= stop.
Proof.
  intros Hk (p & start & Hp & Hs)%first_header_sound.
  apply search_span_sound in Hs as (before & m & rest & c & _ & _ & -> & M).
  pose proof (header_match_nonempty p m rest c (kind_patterns _ _ Hk Hp) M).
  lia.
Qed.

Lemma sections_items (text : string) (name v : string) :
  (name, v) ∈ _extract_sections text ->
  exists kind start_pos,
    kind ∈ section_patterns /\ name = fst kind /\
    first_header (list_ascii_of_string text) (snd kind) = Some start_pos /\
    v = string_of_list_ascii
          (section_text (list_ascii_of_string text) start_pos).
Proof.
  unfold _extract_sections. cbv zeta.
  intros (kind & Hk & H)%list_elem_of_omap.
  destruct (first_header _ (snd kind)) as [start_pos|] eqn:Hh; [|done].
  injection H as <- <-. by exists kind, start_pos.
Qed.

Lemma section_text_inside (text : list ascii) (start_pos : nat) :
  exists a b, text = a ++ section_text text start_pos ++ b.
Proof.
  unfold section_text.
  assert (Hcut : forall s, (exists a b, text = a ++ s ++ b) ->
            exists a b, text = a ++ firstn 1000 (strip s) ++ b).
  { intros s (a & b & ->).
    destruct (strip_inside s) as (a' & b' & Hs).
    destruct (firstn_inside 1000 (strip s)) as [b'' Hb''].
    exists (a ++ a'), (b'' ++ b' ++ b).
    rewrite Hs at 1. rewrite Hb'' at 1. by rewrite <- !app_assoc. }
  destruct (_find_next_section text start_pos) as [[|n]|]; apply Hcut.
  - exists (firstn start_pos text), []. by rewrite app_nil_r, firstn_skipn.
  - exists (firstn start_pos text),
      (skipn (S n - start_pos) (skipn start_pos text)).
    unfold slice. by rewrite firstn_skipn, firstn_skipn.
  - exists (firstn start_pos text), []. by rewrite app_nil_r, firstn_skipn.
Qed.

Lemma section_text_clean (text : list ascii) (start_pos : nat) :
  starts_clean (section_text text start_pos).
Proof.
  unfold section_text.
  destruct (_find_next_section text start_pos) as [[|n]|];
    apply firstn_clean, rstrip_clean, lstrip_clean.
Qed.

(** X14. [_extract_sections] stores at most one text per section kind,
    under the kinds of the pattern table only; each stored text is a piece
    of the resume text, has at most 1000 characters and does not start
    with white space. *)
Theorem sections_bounded (text : string) :
  List.NoDup (map fst (_extract_sections text)) /\
  Forall (fun kv =>
            fst kv ∈ map fst section_patterns /\
            length (list_ascii_of_string (snd kv)) <= 1000 /\
            starts_clean (list_ascii_of_string (snd kv)) /\
            exists a b, list_ascii_of_string text
                        = a ++ list_ascii_of_string (snd kv) ++ b)
    (_extract_sections text).
Proof.
  split.
  - apply NoDup_ListNoDup. unfold _extract_sections. cbv zeta.
    assert (Hkinds : base.NoDup (map fst section_patterns)).
    { apply (bool_decide_unpack _). by vm_compute. }
    revert Hkinds. generalize section_patterns.
    induction l as [|kind l IH]; [constructor|].
    intros Hnd. rewrite map_cons in Hnd.
    apply NoDup_cons in Hnd as [Hnotin Hnd].
    change (omap ?f (kind :: l))
      with (match f kind with Some y => y :: omap f l | None => omap f l end).
    cbv beta.
    destruct (first_header (list_ascii_of_string text) (snd kind));
      [|by apply IH].
    simpl. apply NoDup_cons. split; [|by apply IH].
    intros (kv & Hfst & Hin)%list_elem_of_fmap. apply Hnotin.
    apply list_elem_of_omap in Hin as (kind' & Hk' & Hkv).
    destruct (first_header (list_ascii_of_string text) (snd kind'));
      [|done].
    injection Hkv as <-.
    apply list_elem_of_fmap. exists kind'. by rewrite Hfst.
  - apply Forall_forall. intros [name v] Hin.
    apply sections_items in Hin as (kind & start_pos & Hk & -> & _ & ->).
    cbn [fst snd]. rewrite list_ascii_of_string_of_list_ascii.
    split; [|split; [|split]].
    + apply list_elem_of_fmap. by exists kind.
    + unfold section_text. rewrite length_firstn. lia.
    + apply section_text_clean.
    + apply section_text_inside.
Qed.

(** X15. No stored section text contains a section header: none of the
    header patterns, of whatever kind, matches anywhere in it. *)
Theorem sections_hold_no_header (text : string) :
  Forall (fun kv =>
            forall p, p ∈ all_patterns ->
              search_span true p (list_ascii_of_string (snd kv)) 0 = None)
    (_extract_sections text).
Proof.
  apply Forall_forall. intros [name v] Hin p Hp.
  apply sections_items in Hin as (kind & start_pos & Hk & -> & Hh & ->).
  simpl. rewrite list_ascii_of_string_of_list_ascii.
  apply section_text_no_header; [|done].
  by apply (first_header_positive (list_ascii_of_string text) kind).
Qed.

Lemma scan_complete icase r before tail rest c :
  matches icase r tail no_caps rest c ->
  scan icase r (before ++ tail) 0 <> [].
Proof.
  intros M. pose proof (match_at_complete _ _ _ _ _ M) as Hne.
  induction before as [|x before IH]; simpl.
  - destruct tail as [|y tail]; simpl;
      by destruct (match_at icase r _) as [[rest' c']|].
  - by destruct (match_at icase r (x :: before ++ tail)) as [[rest' c']|].
Qed.

Lemma string_length_of_list (l : list ascii) :
  String.length (string_of_list_ascii l) = length l.
Proof. induction l as [|x l IH]; simpl; [done|]. by rewrite IH. Qed.

(** X16. The value [_extract_contact_info] stores under 'phone' is never
    the telephone number: it is the optional country-code prefix of the
    first match, at most five characters (possibly none), and the match
    goes on for at least ten characters after it. *)
Theorem phone_stores_prefix_only (text : string) :
  match _extract_contact_info_phone text with
  | None => True
  | Some stored =>
      String.length stored <= 5 /\
      exists number,
        search_group false phone_pattern text = Some (stored ++ number)%string
        /\ 10 <= String.length number
  end.
Proof.
  unfold search_group, _extract_contact_info_phone, findall.
  destruct (finditer false phone_pattern text) as [|[whole c] ms] eqn:Hscan;
    [done|].
  assert (Hin : (whole, c) ∈ finditer false phone_pattern text)
    by (rewrite Hscan; left).
  apply scan_sound in Hin as (before & rest & _ & M).
  cbn [map fst].
  change (phone_value (report phone_pattern (whole, c)))
    with (group_text c 1).
  inversion M as [| | |r1 r2 s0 c0 s1 c1 s2 c2 M1 M2| | | |]; subst.
  pose proof (matches_no_groups _ _ _ _ _ _ M2 eq_refl) as ->.
  pose proof (matches_min_len _ _ _ _ _ _ M2) as Hmin.
  destruct (matches_suffix _ _ _ _ _ _ M2) as [number Hnumber].
  subst s1. rewrite consumed_app in Hmin.
  change (min_len _) with 10 in Hmin.
  inversion M1 as [| | | |r s0 c0 s1 c1' MG| r s0 c0| |]; subst.
  - inversion MG as [| | | | | | |j r s0 c0 s1 c1' Mg]; subst.
    pose proof (matches_max_len _ _ _ _ _ _ 5 Mg eq_refl) as Hmax.
    destruct (matches_suffix _ _ _ _ _ _ Mg) as [code Hcode].
    rewrite Hcode, consumed_app in Hmax.
    rewrite app_assoc in Hcode. apply app_inv_tail in Hcode. subst whole.
    rewrite <- (app_assoc code number rest), consumed_app.
    unfold group_text, set_cap. rewrite Nat.eqb_refl.
    rewrite string_length_of_list. split; [done|].
    exists (string_of_list_ascii number).
    by rewrite ResumeParser_facts.string_of_list_ascii_app,
      string_length_of_list.
  - match goal with
    | H : whole ++ rest = _ |- _ => apply app_inv_tail in H; subst whole
    end.
    unfold group_text. simpl. split; [lia|].
    exists (string_of_list_ascii number).
    by rewrite string_length_of_list.
Qed.

(** X17. Ten decimal digits in a row anywhere in the text are enough for
    [_extract_contact_info] to set the 'phone' key. *)
Theorem phone_set_for_ten_digits (text : string)
    (before ds rest : list ascii) :
  list_ascii_of_string text = before ++ ds ++ rest ->
  length ds = 10 -> forallb is_digit ds = true ->
  is_Some (_extract_contact_info_phone text).
Proof.
  intros Htext Hlen Hds.
  assert (M : matches false phone_pattern (ds ++ rest) no_caps rest no_caps).
  { rewrite <- (firstn_skipn 3 ds) in Hds |- *.
    rewrite <- (firstn_skipn 3 (skipn 3 ds)) in Hds |- *.
    rewrite !forallb_app in Hds.
    apply andb_prop in Hds as [Ha Hbc]. apply andb_prop in Hbc as [Hb Hc].
    rewrite <- !app_assoc.
    eapply M_Cat; [apply M_Opt_none|].
    eapply M_Cat; [apply M_Opt_none|].
    eapply M_Cat.
    { apply M_Rep; [| |exact Ha]; simpl; rewrite length_firstn; lia. }
    eapply M_Cat; [apply M_Opt_none|].
    eapply M_Cat; [apply M_Opt_none|].
    eapply M_Cat.
    { apply M_Rep; [| |exact Hb]; simpl;
        rewrite length_firstn, length_skipn; lia. }
    eapply M_Cat; [apply M_Opt_none|].
    apply M_Rep; [| |exact Hc]; simpl; rewrite !length_skipn; lia. }
  apply (scan_complete false phone_pattern before) in M.
  rewrite <- Htext in M.
  unfold _extract_contact_info_phone, findall, finditer.
  by destruct (scan false phone_pattern (list_ascii_of_string text) 0).
Qed.

Lemma phone_set_for_ten_digits_witness :
  is_Some (_extract_contact_info_phone "tel 5551234567.").
Proof.
  apply (phone_set_for_ten_digits "tel 5551234567."
           (list_ascii_of_string "tel ") (list_ascii_of_string "5551234567")
           (list_ascii_of_string "."));
    reflexivity.
Defined.

End ResumeParser_more_facts.

(** ** Skills and languages *)
Module ResumeParser_words_facts.
Import re ResumeParser_words.

Lemma literal_spec (w s rest : list ascii) :
  literal w s = Some rest <-> s = w ++ rest.
Proof.
  revert s. induction w as [|a w IH]; intros s; simpl.
  - split; [by intros [= ->]|by intros ->].
  - destruct s as [|x s]; [done|].
    destruct (Ascii.eqb_spec a x) as [->|Hne].
    + rewrite IH. split; [by intros ->|by intros [= ->]].
    + split; [done|]. intros [= <- _]. done.
Qed.

Lemma last_char_app (prev : option ascii) (a b : list ascii) :
  last_char prev (a ++ b) = last_char (last_char prev a) b.
Proof. apply fold_left_app. Qed.

(** The search finds exactly the whole-word occurrences. *)
Lemma search_word_spec (w : list ascii) (prev : option ascii)
    (s : list ascii) :
  search_word w prev s = true <->
  exists before after,
    s = before ++ w ++ after /\
    boundary (last_char prev before) (head (w ++ after)) = true /\
    boundary (last_char prev (before ++ w)) (head after) = true.
Proof.
  revert prev. induction s as [|x s IH]; intros prev.
  - simpl. rewrite orb_false_r. unfold word_here. split.
    + intros [Hb Hl]%andb_prop.
      destruct (literal w []) as [rest|] eqn:Hw; [|done].
      apply literal_spec in Hw. exists [], rest. by rewrite <- Hw.
    + intros (before & after & Hs & Hb & Ha).
      destruct before as [|y before]; [|done].
      change ([] ++ w ++ after) with (w ++ after) in Hs.
      change (last_char prev []) with prev in Hb.
      change ([] ++ w) with w in Ha.
      apply andb_true_intro. split; [by rewrite Hs|].
      by rewrite (proj2 (literal_spec w [] after) Hs).
  - cbn [search_word]. rewrite orb_true_iff, IH. unfold word_here. split.
    + intros [[Hb Hl]%andb_prop|(before & after & Hs & Hb & Ha)].
      * destruct (literal w (x :: s)) as [rest|] eqn:Hw; [|done].
        apply literal_spec in Hw. exists [], rest. by rewrite <- Hw.
      * exists (x :: before), after. by rewrite Hs.
    + intros (before & after & Hs & Hb & Ha).
      destruct before as [|y before].
      * left.
        change ([] ++ w ++ after) with (w ++ after) in Hs.
        change (last_char prev []) with prev in Hb.
        change ([] ++ w) with w in Ha.
        apply andb_true_intro. split; [by rewrite Hs|].
        by rewrite (proj2 (literal_spec w (x :: s) after) Hs).
      * right. injection Hs as <- ->. by exists before, after.
Qed.

Lemma mentions_spec (text_lower : list ascii) (name : string) :
  mentions text_lower name = true <->
  whole_word (str_lower (list_ascii_of_string name)) text_lower.
Proof. apply search_word_spec. Qed.

Lemma elem_of_sorted_set (l : list string) (x : string) :
  x ∈ sorted_set l <-> x ∈ l.
Proof.
  unfold sorted_set. by rewrite merge_sort_Permutation, elem_of_remove_dups.
Qed.

(** X18. [_extract_skills] returns, without repetition and in ascending
    order of [str], exactly the skills of the table whose lower-cased
    name stands as a whole word in the lower-cased text. *)
Theorem extract_skills_whole_words (text : string) :
  List.NoDup (_extract_skills text) /\
  Sorted str_le (_extract_skills text) /\
  forall skill,
    skill ∈ _extract_skills text <->
    skill ∈ concat (map snd skills_patterns) /\
    whole_word (str_lower (list_ascii_of_string skill))
      (str_lower (list_ascii_of_string text)).
Proof.
  unfold _extract_skills. cbv zeta. split; [|split].
  - apply NoDup_ListNoDup. unfold sorted_set.
    rewrite merge_sort_Permutation. apply NoDup_remove_dups.
  - apply Sorted_merge_sort. intros a b. apply String.leb_total.
  - intros skill.
    rewrite elem_of_sorted_set, list_elem_of_filter, mentions_spec. tauto.
Qed.

(** X19. The skills "C++" and "C#" are reported only where the text goes
    on with a word character right after them; followed by a blank, by
    punctuation or by the end of the text they are not found. *)
Theorem symbol_skills_need_a_follower (text skill : string) :
  skill = "C++" \/ skill = "C#" ->
  skill ∈ _extract_skills text ->
  exists before x after,
    str_lower (list_ascii_of_string text)
    = before ++ str_lower (list_ascii_of_string skill) ++ x :: after /\
    re_w x = true.
Proof.
  intros Hskill Hin.
  unfold _extract_skills in Hin. cbv zeta in Hin.
  apply elem_of_sorted_set, list_elem_of_filter in Hin as [Hin _].
  apply mentions_spec in Hin as (before & after & Hs & _ & Ha).
  exists before. rewrite last_char_app in Ha.
  destruct after as [|x after].
  - destruct Hskill as [-> | ->]; by destruct (last_char None before).
  - exists x, after. split; [done|].
    destruct Hskill as [-> | ->]; by destruct (last_char None before).
Qed.

Lemma symbol_skills_need_a_follower_witness :
  exists before x after,
    str_lower (list_ascii_of_string "since C++11")
    = before ++ str_lower (list_ascii_of_string "C++") ++ x :: after /\
    re_w x = true.
Proof.
  apply (symbol_skills_need_a_follower "since C++11" "C++").
  - by left.
  - vm_compute. left.
Defined.

(** X20. [_extract_languages] returns, in the order of its list of
    languages, exactly those whose lower-cased name stands as a whole
    word in the lower-cased text. *)
Theorem extract_languages_whole_words (text : string) :
  sublist (_extract_languages text) common_languages /\
  forall lang,
    lang ∈ _extract_languages text <->
    lang ∈ common_languages /\
    whole_word (str_lower (list_ascii_of_string lang))
      (str_lower (list_ascii_of_string text)).
Proof.
  unfold _extract_languages. cbv zeta. split.
  - apply sublist_filter.
  - intros lang. rewrite list_elem_of_filter, mentions_spec. tauto.
Qed.

End ResumeParser_words_facts.

(** ** The added properties on the float backend and on sample texts *)
Module more_witnesses.
Import faiss FAISSService FAISSService_more flat_ip scenario.
Import pystr EmbeddingService_more.

Lemma add_vectors_batch_as_appends_witness :
  add_each [("first", unit_x, no_data); ("second", unit_x, no_data)] fresh
  = snd (add_vectors_batch
           (map item_of [("first", unit_x, no_data);
                         ("second", unit_x, no_data)]) fresh).
Proof.
  apply FAISSService_more_facts.add_vectors_batch_as_appends.
  vm_compute. reflexivity.
Defined.

Lemma restart_restores_witness :
  _initialize_index {| self := self fresh; fs := fs twins |}
  = (Ok tt, {| self := {| index := index (self twins);
                          metadata := metadata (self twins);
                          dimension := dimension (self fresh) |};
               fs := fs twins |}).
Proof.
  apply (FAISSService_more_facts.restart_restores
           (step (Add "first" unit_x no_data) fresh) twins (self fresh)).
  left. exists "second", unit_x, no_data. vm_compute. reflexivity.
Defined.


Lemma load_keeps_stored_dimension_witness :
  fst (add_vector "third" unit_x no_data
         (snd (_initialize_index {| self := self fresh; fs := fs twins |})))
  = Ok tt <->
  length unit_x = 2.
Proof.
  apply (FAISSService_more_facts.load_keeps_stored_dimension
           (self fresh) (fs twins) (index (self twins)) (metadata (self twins)));
    vm_compute; reflexivity.
Defined.

Lemma preprocess_text_keeps_words_witness :
  split (list_ascii_of_string (_preprocess_text "  ten   years of Go "))
  = split (list_ascii_of_string "  ten   years of Go ").
Proof.
  apply (EmbeddingService_more_facts.preprocess_text_keeps_words
           "  ten   years of Go ").
  vm_compute. lia.
Defined.

End more_witnesses.

(** ** Initialisation over damaged files, and the maintenance routes *)
Module maintenance_facts.
Import faiss FAISSService FAISSService_facts.

Section Maintenance.
Context {scalar : Type} `{!Backend scalar}.

(** X21. Unless both files can be read, initialisation ends with a new
    empty index of the configured dimension and writes both files anew.
    This includes the case of two files of which one cannot be decoded:
    the content of the other one is overwritten. *)
Theorem initialize_resets_unless_both_readable (w : world scalar) :
  ~ (exists i m, index_file (fs w) = Stored i /\
                 metadata_file (fs w) = Stored m) ->
  _initialize_index w
  = (Ok tt,
     {| self := {| index := new (dimension (self w)); metadata := ∅;
                   dimension := dimension (self w) |};
        fs := {| index_file := Stored (new (dimension (self w)));
                 metadata_file := Stored ∅ |} |}).
Proof.
  destruct w as [[idx md dim] [fi fm]]. simpl. intros Hnot.
  run_service. destruct fi, fm; simpl in *; try done.
  destruct Hnot. by eexists _, _.
Qed.

(** X22. On a disk that takes the two writes, [POST /index/rebuild]
    answers that the index was rebuilt, and what it leaves is an empty
    index: [GET /resumes/count] then answers 0 and every search returns
    the empty list, whatever was stored before. *)
Theorem rebuild_route_wipes (w : world scalar) (q : list scalar) (top_k : Z)
    (threshold : scalar) :
  fst (routes_more.rebuild_index w)
  = routes.Message "Index rebuilt successfully" /\
  routes_more.get_resume_count (snd (routes_more.rebuild_index w))
  = (routes_more.Total_resumes 0, snd (routes_more.rebuild_index w)) /\
  search q top_k threshold (snd (routes_more.rebuild_index w))
  = (Ok [], snd (routes_more.rebuild_index w)).
Proof.
  unfold routes_more.rebuild_index. rewrite rebuild_index_run. simpl.
  split; [done|]. split; [done|]. by rewrite search_run.
Qed.

End Maintenance.

Lemma initialize_resets_unless_both_readable_witness :
  _initialize_index
    {| self := self scenario.fresh;
       fs := {| index_file := index_file (fs scenario.twins);
                metadata_file := Unreadable |} |}
  = (Ok tt,
     {| self := self scenario.fresh;
        fs := {| index_file := Stored (new 2);
                 metadata_file := Stored ∅ |} |}).
Proof.
  apply (initialize_resets_unless_both_readable
           {| self := self scenario.fresh;
              fs := {| index_file := index_file (fs scenario.twins);
                       metadata_file := Unreadable |} |}).
  intros (i & m & _ & Hm). discriminate Hm.
Defined.

End maintenance_facts.

(** ** Experience years: a phrase that is always found *)
Module ResumeParser_phrase_facts.
Import re re_sem ResumeParser re_facts ResumeParser_facts.





End ResumeParser_phrase_facts.
